(** * ZSEL Mail Provisioner: a shallow embedding of [provisioner/src/main.py]

    The provisioner polls a FreeIPA directory over LDAP and, for every
    entry it finds, calls into a [MailboxManager].  The embedding keeps the
    structure of the Python module: the two configuration dataclasses, the
    [UserRole] enumeration, the three [MailboxManager] coroutines, and the
    [FreeIPAListener] with its polling loop.

    Effects are explicit.  A coroutine becomes a function from a [World]
    to a result (a value or a raised exception) and a new [World]; the
    world holds the listener's connection, the directory behind it, and
    the trace of everything the program did that can be observed from
    outside (LDAP requests, log records, sleeps). *)

From Stdlib Require Import List String Ascii ZArith Lia Bool.
Import ListNotations.
Local Open Scope string_scope.

(** ** Strings *)

Module Str.

(** [startswith p s]: [s] begins with [p]. *)
Fixpoint startswith (p s : string) : bool :=
  match p, s with
  | EmptyString, _ => true
  | String a p', String b s' => Ascii.eqb a b && startswith p' s'
  | String _ _, EmptyString => false
  end.

(** Python's [needle in hay] on [str]: [needle] occurs in [hay] as a
    contiguous substring. *)
Fixpoint contains (needle hay : string) : bool :=
  startswith needle hay ||
  match hay with
  | EmptyString => false
  | String _ hay' => contains needle hay'
  end.

(** [endswith p s]: [s] ends with [p]. *)
Fixpoint endswith (p s : string) : bool :=
  String.eqb p s ||
  match s with
  | EmptyString => false
  | String _ s' => endswith p s'
  end.

(** The propositional reading of substring containment. *)
Definition occurs_in (needle hay : string) : Prop :=
  exists pre post, hay = pre ++ needle ++ post.

End Str.

(** ** Enumerations and configuration *)

(** [class UserRole(Enum)]. *)
Inductive UserRole : Type :=
| UCZEN
| NAUCZYCIEL
| ADMINISTRACJA
| DYREKCJA.

Definition UserRole_eqb (a b : UserRole) : bool :=
  match a, b with
  | UCZEN, UCZEN | NAUCZYCIEL, NAUCZYCIEL
  | ADMINISTRACJA, ADMINISTRACJA | DYREKCJA, DYREKCJA => true
  | _, _ => false
  end.

Definition GiB : Z := 1024 * 1024 * 1024.

(** [@dataclass MailConfig]; the quotas are in bytes. *)
Record MailConfig : Type := {
  domain : string;
  maildir_base : string;
  quota_uczen : Z;
  quota_nauczyciel : Z;
  quota_admin : Z;
  quota_dyrekcja : Z
}.

(** The dataclass defaults. *)
Definition default_MailConfig : MailConfig := {|
  domain := "zsel.opole.pl";
  maildir_base := "/var/mail/vhosts";
  quota_uczen := 1 * 1024 * 1024 * 1024;
  quota_nauczyciel := 5 * 1024 * 1024 * 1024;
  quota_admin := 10 * 1024 * 1024 * 1024;
  quota_dyrekcja := 20 * 1024 * 1024 * 1024
|}.

(** [@dataclass FreeIPAConfig]. *)
Record FreeIPAConfig : Type := {
  server : string;
  base_dn : string;
  bind_dn : string;
  bind_password : string;
  watch_ous : list string
}.

Definition default_FreeIPAConfig : FreeIPAConfig := {|
  server := "ipa1.zsel.opole.pl";
  base_dn := "dc=zsel,dc=opole,dc=pl";
  bind_dn := "uid=mail-provisioner,cn=sysaccounts,cn=etc,dc=zsel,dc=opole,dc=pl";
  bind_password := "";
  watch_ous := ["ou=uczniowie"; "ou=nauczyciele"; "ou=administracja"]
|}.

(** ** Pure helpers of the two classes *)

(** [MailboxManager._get_quota]: a dictionary lookup with the pupil quota
    as the default; the dictionary has a key for each of the four roles. *)
Definition _get_quota (config : MailConfig) (role : UserRole) : Z :=
  let quotas :=
    [ (UCZEN, quota_uczen config);
      (NAUCZYCIEL, quota_nauczyciel config);
      (ADMINISTRACJA, quota_admin config);
      (DYREKCJA, quota_dyrekcja config) ] in
  match find (fun kv => UserRole_eqb (fst kv) role) quotas with
  | Some kv => snd kv
  | None => quota_uczen config
  end.

(** [FreeIPAListener._detect_role]: an [if]/[elif] chain of substring
    tests, falling through to [UserRole.UCZEN]. *)
Definition _detect_role (ou : string) : UserRole :=
  if Str.contains "uczniowie" ou then UCZEN
  else if Str.contains "nauczyciele" ou then NAUCZYCIEL
  else if Str.contains "administracja" ou then ADMINISTRACJA
  else if Str.contains "dyrekcja" ou then DYREKCJA
  else UCZEN.

(** The organisational-unit names the chain looks for. *)
Definition known_units : list string :=
  ["uczniowie"; "nauczyciele"; "administracja"; "dyrekcja"].

(** ** The directory

    The directory service is an external collaborator.  What the program
    relies on is modelled here: entries with a distinguished name and the
    attributes the two search filters and the code look at, subtree
    search, and replacement of the [mail] attribute. *)

Record Entry : Type := {
  entry_dn : string;
  uid : string;
  person : bool;            (* objectClass=person *)
  mail : option string;
  nsAccountLock : bool      (* nsAccountLock=TRUE *)
}.

(** The fragment of LDAP filter syntax the program uses. *)
Inductive Filter : Type :=
| FAnd (f g : Filter)
| FNot (f : Filter)
| FEq (attr value : string)
| FPresent (attr : string).

(** The filter of [_process_new_users]: the conjunction of
    objectClass=person and the negation of "mail is present". *)
Definition new_users_filter : Filter :=
  FAnd (FEq "objectClass" "person") (FNot (FPresent "mail")).

(** The filter of [_process_disabled_users]: the conjunction of
    objectClass=person, nsAccountLock=TRUE and "mail is present". *)
Definition disabled_users_filter : Filter :=
  FAnd (FEq "objectClass" "person")
       (FAnd (FEq "nsAccountLock" "TRUE") (FPresent "mail")).

Definition is_some {A : Type} (o : option A) : bool :=
  match o with Some _ => true | None => false end.

Fixpoint matches (f : Filter) (e : Entry) : bool :=
  match f with
  | FAnd f1 f2 => matches f1 e && matches f2 e
  | FNot f1 => negb (matches f1 e)
  | FEq attr value =>
      if String.eqb attr "objectClass" then String.eqb value "person" && person e
      else if String.eqb attr "nsAccountLock" then String.eqb value "TRUE" && nsAccountLock e
      else if String.eqb attr "mail" then
        match mail e with Some m => String.eqb m value | None => false end
      else if String.eqb attr "uid" then String.eqb (uid e) value
      else false
  | FPresent attr =>
      if String.eqb attr "objectClass" then person e
      else if String.eqb attr "nsAccountLock" then nsAccountLock e
      else if String.eqb attr "mail" then is_some (mail e)
      else String.eqb attr "uid"
  end.

(** [dn] lies in the subtree rooted at [base] ([search_scope=SUBTREE]). *)
Definition in_subtree (base dn : string) : bool :=
  String.eqb dn base || Str.endswith ("," ++ base) dn.

Definition search_result (dir : list Entry) (base : string) (f : Filter)
  : list Entry :=
  filter (fun e => in_subtree base (entry_dn e) && matches f e) dir.

Definition with_mail (email : string) (e : Entry) : Entry :=
  {| entry_dn := entry_dn e; uid := uid e; person := person e;
     mail := Some email; nsAccountLock := nsAccountLock e |}.

(** [{'mail': [(MODIFY_REPLACE, [email])]}] on the entry named [dn]. *)
Definition replace_mail (dn email : string) (e : Entry) : Entry :=
  if String.eqb (entry_dn e) dn then with_mail email e else e.

(** ** Observable events *)

Inductive LdapRequest : Type :=
| Bind (srv user : string)
| Search (base : string) (f : Filter)
| Modify (dn email : string).

(** Exceptions the modelled operations raise; all are subclasses of
    Python's [Exception]. *)
Inductive Exception : Type :=
| LDAPException (during : LdapRequest)
| AttributeError.     (* a method called on [self.connection = None] *)

Inductive Level : Type := INFO | WARNING | ERROR.

(** One constructor per f-string passed to the logger, holding the values
    interpolated into it. *)
Inductive Message : Type :=
| MsgConnected (srv : string)
| MsgCreating (email : string) (quota : Z)
| MsgArchiving (email archive_path : string)
| MsgDeleting (email : string)
| MsgNewUser (uid : string) (role : UserRole)
| MsgDisabledUser (uid : string)
| MsgMailUpdated (user_dn email : string)
| MsgWatchLoopError (e : Exception).

Inductive Event : Type :=
| Ldap (r : LdapRequest)
| Log (lvl : Level) (msg : Message)
| Sleep (seconds : Z).

(** ** The world and the effect monad *)

Record World : Type := {
  connection : option string;   (* [self.connection]; the server it is bound to *)
  directory : list Entry;
  faults : list bool;           (* for each coming LDAP request: does it fail? *)
  trace : list Event
}.

Definition with_connection (c : option string) (w : World) : World :=
  {| connection := c; directory := directory w;
     faults := faults w; trace := trace w |}.

Definition with_directory (d : list Entry) (w : World) : World :=
  {| connection := connection w; directory := d;
     faults := faults w; trace := trace w |}.

Definition with_faults (f : list bool) (w : World) : World :=
  {| connection := connection w; directory := directory w;
     faults := f; trace := trace w |}.

Definition with_trace (t : list Event) (w : World) : World :=
  {| connection := connection w; directory := directory w;
     faults := faults w; trace := t |}.

Inductive Result (A : Type) : Type :=
| Ok (a : A)
| Raise (e : Exception).
Arguments Ok {A} a.
Arguments Raise {A} e.

Definition M (A : Type) : Type := World -> Result A * World.

Definition ret {A : Type} (a : A) : M A := fun w => (Ok a, w).

Definition bind {A B : Type} (c : M A) (k : A -> M B) : M B :=
  fun w =>
    match c w with
    | (Ok a, w') => k a w'
    | (Raise e, w') => (Raise e, w')
    end.

Definition raise {A : Type} (e : Exception) : M A := fun w => (Raise e, w).

Notation "x <- c ;; k" := (bind c (fun x => k))
  (at level 61, c at next level, right associativity).
Notation "c ;; k" := (bind c (fun _ => k))
  (at level 61, right associativity).

(** [try: body / except Exception as e: handler e]. *)
Definition try_except (body : M unit) (handler : Exception -> M unit) : M unit :=
  fun w =>
    match body w with
    | (Ok tt, w') => (Ok tt, w')
    | (Raise e, w') => handler e w'
    end.

(** [for x in xs: body x]. *)
Fixpoint for_each {A : Type} (xs : list A) (body : A -> M unit) : M unit :=
  match xs with
  | [] => ret tt
  | x :: xs' => body x ;; for_each xs' body
  end.

Definition emit (ev : Event) : M unit :=
  fun w => (Ok tt, with_trace (trace w ++ [ev]) w).

Definition logger (lvl : Level) (msg : Message) : M unit := emit (Log lvl msg).

(** Takes the verdict for the next LDAP request; no verdict left means
    the request goes through. *)
Definition next_fault : M bool :=
  fun w =>
    match faults w with
    | [] => (Ok false, w)
    | b :: rest => (Ok b, with_faults rest w)
    end.

(** Sends [r] to the server: the request is recorded, and fails when the
    fault plan says so. *)
Definition request (r : LdapRequest) : M unit :=
  emit (Ldap r) ;;
  failed <- next_fault ;;
  if failed then raise (LDAPException r) else ret tt.

(** Any method of [self.connection] needs a connection object. *)
Definition the_connection : M string :=
  fun w =>
    match connection w with
    | Some srv => (Ok srv, w)
    | None => (Raise AttributeError, w)
    end.

(** [self.connection.search(...)] followed by reading
    [self.connection.entries]. *)
Definition connection_search (base : string) (f : Filter) : M (list Entry) :=
  _ <- the_connection ;;
  request (Search base f) ;;
  fun w => (Ok (search_result (directory w) base f), w).

(** [self.connection.modify(dn, {'mail': [(MODIFY_REPLACE, [email])]})]. *)
Definition connection_modify (dn email : string) : M unit :=
  _ <- the_connection ;;
  request (Modify dn email) ;;
  fun w => (Ok tt, with_directory (map (replace_mail dn email) (directory w)) w).

(** ** [class MailboxManager] *)

Module MailboxManager.

(** [create_mailbox(uid, role) -> str].  The backend work is a TODO in the
    source: the coroutine computes the address and the quota, logs both
    and returns the address. *)
Definition create_mailbox (config : MailConfig) (uid : string) (role : UserRole)
  : M string :=
  let email := uid ++ "@" ++ domain config in
  let quota := _get_quota config role in
  logger INFO (MsgCreating email quota) ;;
  ret email.

(** [archive_mailbox(uid) -> str], likewise a stub: logs and returns the
    archive path. *)
Definition archive_mailbox (config : MailConfig) (uid : string) : M string :=
  let email := uid ++ "@" ++ domain config in
  let archive_path := "/archive/mail/" ++ uid in
  logger INFO (MsgArchiving email archive_path) ;;
  ret archive_path.

(** [delete_mailbox(uid) -> None]: logs a warning; the retention check
    and the removal are a TODO in the source. *)
Definition delete_mailbox (config : MailConfig) (uid : string) : M unit :=
  let email := uid ++ "@" ++ domain config in
  logger WARNING (MsgDeleting email).

End MailboxManager.

(** ** [class FreeIPAListener] *)

Module FreeIPAListener.

Section Listener.

Variable config : FreeIPAConfig.
Variable mail_config : MailConfig.   (* [self.mailbox_manager.config] *)

(** [connect]: binds ([auto_bind=True]) and keeps the connection. *)
Definition connect : M unit :=
  request (Bind (server config) (bind_dn config)) ;;
  (fun w => (Ok tt, with_connection (Some (server config)) w)) ;;
  logger INFO (MsgConnected (server config)).

Definition _update_mail_attribute (user_dn email : string) : M unit :=
  connection_modify user_dn email ;;
  logger INFO (MsgMailUpdated user_dn email).

Definition _process_new_users : M unit :=
  for_each (watch_ous config) (fun ou =>
    let search_base := ou ++ "," ++ base_dn config in
    entries <- connection_search search_base new_users_filter ;;
    for_each entries (fun entry =>
      let uid := uid entry in
      let role := _detect_role ou in
      logger INFO (MsgNewUser uid role) ;;
      email <- MailboxManager.create_mailbox mail_config uid role ;;
      _update_mail_attribute (entry_dn entry) email)).

Definition _process_disabled_users : M unit :=
  let search_base := base_dn config in
  entries <- connection_search search_base disabled_users_filter ;;
  for_each entries (fun entry =>
    let uid := uid entry in
    logger INFO (MsgDisabledUser uid) ;;
    _ <- MailboxManager.archive_mailbox mail_config uid ;;
    ret tt).

(** [_update_group_aliases]: [pass]. *)
Definition _update_group_aliases : M unit := ret tt.

(** One turn of the [while True] loop of [watch_users]. *)
Definition watch_iteration : M unit :=
  try_except
    (_process_new_users ;;
     _process_disabled_users ;;
     _update_group_aliases)
    (fun e => logger ERROR (MsgWatchLoopError e)) ;;
  emit (Sleep 60).

(** The first [n] turns of the loop. *)
Fixpoint watch_loop (n : nat) : M unit :=
  match n with
  | O => ret tt
  | S k => watch_iteration ;; watch_loop k
  end.

(** [watch_users], cut off after [n] turns of its loop. *)
Definition watch_users (n : nat) : M unit :=
  (fun w => match connection w with
            | None => connect w
            | Some _ => (Ok tt, w)
            end) ;;
  watch_loop n.

End Listener.

End FreeIPAListener.

(** ** Reading traces *)

Definition is_archiving_of (email : string) (ev : Event) : bool :=
  match ev with
  | Log INFO (MsgArchiving e _) => String.eqb e email
  | _ => false
  end.

(** The loop's [asyncio.sleep(60)]. *)
Definition is_sleep (ev : Event) : bool :=
  match ev with Sleep seconds => Z.eqb seconds 60 | _ => false end.

Definition count (p : Event -> bool) (t : list Event) : nat :=
  List.length (filter p t).

(** ** Scenario data *)

Definition mk_world (dir : list Entry) (plan : list bool) : World :=
  {| connection := Some "ipa1.zsel.opole.pl"; directory := dir;
     faults := plan; trace := [] |}.

Definition jkowalski : Entry := {|
  entry_dn := "uid=jkowalski,ou=uczniowie,dc=zsel,dc=opole,dc=pl";
  uid := "jkowalski"; person := true; mail := None; nsAccountLock := false |}.

Definition anowak : Entry := {|
  entry_dn := "uid=anowak,ou=nauczyciele,dc=zsel,dc=opole,dc=pl";
  uid := "anowak"; person := true; mail := Some "anowak@zsel.opole.pl";
  nsAccountLock := true |}.

Definition dyrektor : Entry := {|
  entry_dn := "uid=dyrektor,ou=dyrekcja,dc=zsel,dc=opole,dc=pl";
  uid := "dyrektor"; person := true; mail := None; nsAccountLock := false |}.

(** ** Classes of events

    [grows_by P w w']: [w'] has the trace of [w] followed by events that
    all satisfy [P].  [emits P c]: whatever world [c] is run in, it only
    adds such events. *)

Definition grows_by (P : Event -> Prop) (w w' : World) : Prop :=
  exists t, trace w' = (trace w ++ t)%list /\ Forall P t.

Definition emits {A : Type} (P : Event -> Prop) (c : M A) : Prop :=
  forall w, grows_by P w (snd (c w)).

(** [rebase w r]: the outcome [r] of a run started on an empty trace,
    read as the outcome of the same run started after the trace of [w].
    [trace_blind c]: [c] never looks at the trace; it behaves after any
    history as it does after none, and only appends. *)
Definition rebase {A : Type} (w : World) (r : Result A * World)
  : Result A * World :=
  (fst r, with_trace (trace w ++ trace (snd r)) (snd r)).

Definition trace_blind {A : Type} (c : M A) : Prop :=
  forall w, c w = rebase w (c (with_trace [] w)).

(** What [_process_new_users] can add to the trace. *)
Definition new_users_event (ev : Event) : Prop :=
  match ev with
  | Ldap (Search _ f) => f = new_users_filter
  | Ldap (Modify _ _) => True
  | Log INFO (MsgNewUser _ _) => True
  | Log INFO (MsgCreating _ _) => True
  | Log INFO (MsgMailUpdated _ _) => True
  | _ => False
  end.

(** What [_process_disabled_users] can add to the trace. *)
Definition disabled_users_event (ev : Event) : Prop :=
  match ev with
  | Ldap (Search _ f) => f = disabled_users_filter
  | Log INFO (MsgDisabledUser _) => True
  | Log INFO (MsgArchiving _ _) => True
  | _ => False
  end.

Definition not_sleep (ev : Event) : Prop := is_sleep ev = false.

(** [provisioned mail_config ou e w]: in [w], the mailbox of the entry
    [e], found under the watched unit [ou], has been created with the
    address [uid@domain] and the quota of the role detected from [ou],
    a request to write that address to the entry has been sent, and the
    entry's [mail] attribute in the directory is that address. *)
Definition provisioned (mail_config : MailConfig) (ou : string) (e : Entry)
  (w : World) : Prop :=
  let email := uid e ++ "@" ++ domain mail_config in
  In (Log INFO (MsgCreating email (_get_quota mail_config (_detect_role ou))))
     (trace w) /\
  In (Ldap (Modify (entry_dn e) email)) (trace w) /\
  In (with_mail email e) (directory w).

(** [ou] is the first of the units [ous] whose subtree under [base]
    holds the name [dn]. *)
Definition first_unit_holding (base dn : string) (ous : list string)
  (ou : string) : Prop :=
  exists before after,
    ous = (before ++ ou :: after)%list /\
    Forall (fun o => in_subtree (o ++ "," ++ base) dn = false) before /\
    in_subtree (ou ++ "," ++ base) dn = true.

(** The world a turn of the polling loop ends in when its body raised
    [e] in [w]: the error is logged and the loop sleeps. *)
Definition after_error (e : Exception) (w : World) : World :=
  with_trace (trace w ++ [Log ERROR (MsgWatchLoopError e); Sleep 60]) w.

(** A world in which LDAP requests go through: the listener is connected
    and no fault is planned. *)
Definition healthy (w : World) : Prop :=
  connection w <> None /\ faults w = [].

(** ** Further vocabulary for the properties of the sweeps *)

Definition is_bind (ev : Event) : bool :=
  match ev with Ldap (Bind _ _) => true | _ => false end.

(** [preserves R c]: in every world, [c] ends in a world related by [R]
    to the one it started in, whether it returns or raises. *)
Definition preserves {A : Type} (R : World -> World -> Prop) (c : M A) : Prop :=
  forall w, R w (snd (c w)).

(** [kept mail_config a b]: [b] is the entry [a] with, at most, its
    [mail] attribute replaced by an address of the configured domain. *)
Definition kept (mail_config : MailConfig) (a b : Entry) : Prop :=
  entry_dn b = entry_dn a /\ uid b = uid a /\ person b = person a /\
  nsAccountLock b = nsAccountLock a /\
  (mail b = mail a \/ exists u, mail b = Some (u ++ "@" ++ domain mail_config)).

Definition same_people (mail_config : MailConfig) (w w' : World) : Prop :=
  Forall2 (kept mail_config) (directory w) (directory w').

Definition same_connection (w w' : World) : Prop :=
  connection w' = connection w.

Definition same_directory (w w' : World) : Prop :=
  directory w' = directory w /\ connection w' = connection w.

(** A rewriting of entries that keeps names and [person] flags and never
    clears a [mail] attribute. *)
Definition only_sets_mail (G : Entry -> Entry) : Prop :=
  forall a,
    entry_dn (G a) = entry_dn a /\ person (G a) = person a /\
    (is_some (mail a) = true -> is_some (mail (G a)) = true).

(** What [_process_new_users] can add to the trace, with the values the
    events carry: searches go to watched units, roles and quotas come
    from watched units, addresses are of the configured domain. *)
Definition provisioning_event (config : FreeIPAConfig)
  (mail_config : MailConfig) (ev : Event) : Prop :=
  match ev with
  | Ldap (Search base f) =>
      f = new_users_filter /\
      exists ou, In ou (watch_ous config) /\ base = ou ++ "," ++ base_dn config
  | Ldap (Modify _ m) => exists u, m = u ++ "@" ++ domain mail_config
  | Log INFO (MsgNewUser _ r) =>
      exists ou, In ou (watch_ous config) /\ r = _detect_role ou
  | Log INFO (MsgCreating m q) =>
      exists u ou,
        In ou (watch_ous config) /\ m = u ++ "@" ++ domain mail_config /\
        q = _get_quota mail_config (_detect_role ou)
  | Log INFO (MsgMailUpdated _ m) => exists u, m = u ++ "@" ++ domain mail_config
  | _ => False
  end.

(** The two log records [_process_disabled_users] writes for an entry. *)
Definition archive_records (mail_config : MailConfig) (e : Entry) : list Event :=
  [Log INFO (MsgDisabledUser (uid e));
   Log INFO (MsgArchiving (uid e ++ "@" ++ domain mail_config)
                          ("/archive/mail/" ++ uid e))].

(** Events other than the report of an [AttributeError] by the loop. *)
Definition no_attribute_error (ev : Event) : Prop :=
  match ev with
  | Log ERROR (MsgWatchLoopError AttributeError) => False
  | _ => True
  end.

(** [never_attribute_error c]: run with a connection object, [c] does not
    raise [AttributeError]. *)
Definition never_attribute_error {A : Type} (c : M A) : Prop :=
  forall w e,
    connection w <> None -> fst (c w) = Raise e -> e <> AttributeError.

(** [stays_connected c]: [c] leaves the connection object alone and,
    given one, does not raise [AttributeError]. *)
Definition stays_connected {A : Type} (c : M A) : Prop :=
  preserves same_connection c /\ never_attribute_error c.

(** * Properties *)

(** ** Substring tests *)

Lemma startswith_app (p post : string) : Str.startswith p (p ++ post) = true.
Proof.
  induction p as [|a p IH]; simpl; [reflexivity|].
  now rewrite Ascii.eqb_refl, IH.
Qed.

Lemma startswith_inv (p s : string) :
  Str.startswith p s = true -> exists post, s = p ++ post.
Proof.
  revert s; induction p as [|a p IH]; intros s H.
  - now exists s.
  - destruct s as [|b s]; simpl in H; [discriminate|].
    apply andb_true_iff in H as [Hab Hps].
    apply Ascii.eqb_eq in Hab; subst b.
    destruct (IH _ Hps) as [post ->].
    now exists post.
Qed.

Lemma contains_occurs (needle hay : string) :
  Str.contains needle hay = true <-> Str.occurs_in needle hay.
Proof.
  split.
  - induction hay as [|c hay IH]; simpl; intros H.
    + rewrite orb_false_r in H.
      destruct (startswith_inv _ _ H) as [post E].
      now exists EmptyString, post.
    + apply orb_true_iff in H as [H|H].
      * destruct (startswith_inv _ _ H) as [post E].
        now exists EmptyString, post.
      * destruct (IH H) as (pre & post & ->).
        now exists (String c pre), post.
  - intros (pre & post & ->).
    induction pre as [|c pre IH].
    + simpl (EmptyString ++ _).
      destruct (needle ++ post) eqn:E; simpl;
        rewrite <- E, startswith_app; reflexivity.
    + simpl. rewrite IH. apply orb_true_r.
Qed.

Lemma contains_not_occurs (needle hay : string) :
  Str.contains needle hay = false <-> ~ Str.occurs_in needle hay.
Proof.
  rewrite <- contains_occurs.
  destruct (Str.contains needle hay); split; intro H.
  - discriminate.
  - exfalso; now apply H.
  - discriminate.
  - reflexivity.
Qed.

(** ** Role resolution *)

(** C4.  [_detect_role] returns a role for every organisational-unit
    string (it is a function of the string alone: it reads no other
    state and has no effect), and a string in which none of the known
    unit names occurs resolves to the pupil role [UCZEN]. *)
Theorem detect_role_total_default (ou : string) :
  (exists r, _detect_role ou = r) /\
  ((forall u, In u known_units -> ~ Str.occurs_in u ou) ->
   _detect_role ou = UCZEN).
Proof.
  split; [now eexists|].
  intros H. unfold _detect_role.
  assert (E : forall u, In u known_units -> Str.contains u ou = false).
  { intros u Hu. apply contains_not_occurs. now apply H. }
  rewrite !E by (simpl; tauto).
  reflexivity.
Qed.

Lemma detect_role_total_default_witness :
  (forall u, In u known_units -> ~ Str.occurs_in u "ou=absolwenci") /\
  _detect_role "ou=absolwenci" = UCZEN.
Proof.
  assert (H : forall u, In u known_units -> ~ Str.occurs_in u "ou=absolwenci").
  { intros u Hu. apply contains_not_occurs.
    simpl in Hu.
    destruct Hu as [<-|[<-|[<-|[<-|[]]]]]; reflexivity. }
  split; [exact H|].
  exact (proj2 (detect_role_total_default "ou=absolwenci") H).
Defined.

(** C9.  Detection is by substring, tried in the fixed order uczniowie,
    nauczyciele, administracja, dyrekcja: a string in which "uczniowie"
    occurs anywhere resolves to [UCZEN] whatever else it contains, and
    each later name decides the role only when no earlier name occurs. *)
Theorem detect_role_substring_priority (ou : string) :
  (Str.occurs_in "uczniowie" ou -> _detect_role ou = UCZEN) /\
  (~ Str.occurs_in "uczniowie" ou -> Str.occurs_in "nauczyciele" ou ->
   _detect_role ou = NAUCZYCIEL) /\
  (~ Str.occurs_in "uczniowie" ou -> ~ Str.occurs_in "nauczyciele" ou ->
   Str.occurs_in "administracja" ou -> _detect_role ou = ADMINISTRACJA) /\
  (~ Str.occurs_in "uczniowie" ou -> ~ Str.occurs_in "nauczyciele" ou ->
   ~ Str.occurs_in "administracja" ou -> Str.occurs_in "dyrekcja" ou ->
   _detect_role ou = DYREKCJA).
Proof.
  unfold _detect_role.
  repeat split; intros;
    repeat match goal with
           | H : Str.occurs_in _ _ |- _ => apply contains_occurs in H; rewrite H
           | H : ~ Str.occurs_in _ _ |- _ => apply contains_not_occurs in H; rewrite H
           end; reflexivity.
Qed.

Lemma detect_role_substring_priority_witness :
  _detect_role "ou=dyrekcja,ou=nauczyciele,ou=uczniowie-2026,dc=zsel" = UCZEN /\
  _detect_role "ou=dyrekcja,ou=stare-nauczyciele" = NAUCZYCIEL /\
  _detect_role "cn=administracja-dyrekcja" = ADMINISTRACJA /\
  _detect_role "ou=dyrekcja2" = DYREKCJA.
Proof.
  split; [|split; [|split]].
  - apply (proj1 (detect_role_substring_priority _)).
    now exists "ou=dyrekcja,ou=nauczyciele,ou=", "-2026,dc=zsel".
  - apply (proj1 (proj2 (detect_role_substring_priority _))).
    + apply contains_not_occurs; reflexivity.
    + now exists "ou=dyrekcja,ou=stare-", "".
  - apply (proj1 (proj2 (proj2 (detect_role_substring_priority _)))).
    + apply contains_not_occurs; reflexivity.
    + apply contains_not_occurs; reflexivity.
    + now exists "cn=", "-dyrekcja".
  - apply (proj2 (proj2 (proj2 (detect_role_substring_priority _)))).
    + apply contains_not_occurs; reflexivity.
    + apply contains_not_occurs; reflexivity.
    + apply contains_not_occurs; reflexivity.
    + now exists "ou=", "2".
Defined.

(** ** Independence from the history *)

Lemma trace_blind_ret {A : Type} (a : A) : trace_blind (ret a).
Proof.
  intros [c d f t]. unfold rebase, ret, with_trace; simpl.
  now rewrite app_nil_r.
Qed.

Lemma trace_blind_raise {A : Type} (e : Exception) : trace_blind (@raise A e).
Proof.
  intros [c d f t]. unfold rebase, raise, with_trace; simpl.
  now rewrite app_nil_r.
Qed.

Lemma trace_blind_emit (ev : Event) : trace_blind (emit ev).
Proof. intros w. reflexivity. Qed.

Lemma trace_blind_bind {A B : Type} (c : M A) (k : A -> M B) :
  trace_blind c -> (forall a, trace_blind (k a)) -> trace_blind (bind c k).
Proof.
  intros Hc Hk w. unfold bind at 1. rewrite (Hc w). unfold bind at 1.
  destruct (c (with_trace [] w)) as [[a|e] w1]; unfold rebase at 1; simpl;
    [|reflexivity].
  rewrite (Hk a (with_trace _ w1)), (Hk a w1).
  change (with_trace [] (with_trace (trace w ++ trace w1) w1))
    with (with_trace [] w1).
  destruct (k a (with_trace [] w1)) as [r2 w2].
  unfold rebase; simpl. unfold with_trace; simpl.
  now rewrite app_assoc.
Qed.

Lemma trace_blind_try_except (body : M unit) (handler : Exception -> M unit) :
  trace_blind body -> (forall e, trace_blind (handler e)) ->
  trace_blind (try_except body handler).
Proof.
  intros Hb Hh w. unfold try_except at 1. rewrite (Hb w). unfold try_except at 1.
  destruct (body (with_trace [] w)) as [[[]|e] w1]; unfold rebase at 1; simpl;
    [reflexivity|].
  rewrite (Hh e (with_trace _ w1)), (Hh e w1).
  change (with_trace [] (with_trace (trace w ++ trace w1) w1))
    with (with_trace [] w1).
  destruct (handler e (with_trace [] w1)) as [r2 w2].
  unfold rebase; simpl. unfold with_trace; simpl.
  now rewrite app_assoc.
Qed.

Lemma trace_blind_for_each {A : Type} (xs : list A) (body : A -> M unit) :
  (forall x, trace_blind (body x)) -> trace_blind (for_each xs body).
Proof.
  intros Hb. induction xs as [|x xs IH]; simpl.
  - apply trace_blind_ret.
  - apply trace_blind_bind; [apply Hb | intros _; exact IH].
Qed.

Lemma trace_blind_connection_search (base : string) (f : Filter) :
  trace_blind (connection_search base f).
Proof.
  intros [[srv|] dir [|[] plan] t]; cbv -[search_result app];
    rewrite ?app_nil_r; reflexivity.
Qed.

Lemma trace_blind_connection_modify (dn email : string) :
  trace_blind (connection_modify dn email).
Proof.
  intros [[srv|] dir [|[] plan] t]; cbv -[map replace_mail app];
    rewrite ?app_nil_r; reflexivity.
Qed.

Lemma trace_blind_watch_iteration (config : FreeIPAConfig)
  (mail_config : MailConfig) :
  trace_blind (FreeIPAListener.watch_iteration config mail_config).
Proof.
  unfold FreeIPAListener.watch_iteration.
  apply trace_blind_bind; [|intros _; apply trace_blind_emit].
  apply trace_blind_try_except; [|intros e; apply trace_blind_emit].
  apply trace_blind_bind; [|intros _; apply trace_blind_bind].
  - apply trace_blind_for_each; intros ou.
    apply trace_blind_bind; [apply trace_blind_connection_search | intros xs].
    apply trace_blind_for_each; intros x.
    apply trace_blind_bind; [apply trace_blind_emit | intros _].
    apply trace_blind_bind.
    + apply trace_blind_bind; [apply trace_blind_emit | intros _].
      apply trace_blind_ret.
    + intros email.
      apply trace_blind_bind; [apply trace_blind_connection_modify | intros _].
      apply trace_blind_emit.
  - apply trace_blind_bind; [apply trace_blind_connection_search | intros xs].
    apply trace_blind_for_each; intros x.
    apply trace_blind_bind; [apply trace_blind_emit | intros _].
    apply trace_blind_bind; [|intros _; apply trace_blind_ret].
    apply trace_blind_bind; [apply trace_blind_emit | intros _].
    apply trace_blind_ret.
  - intros _. apply trace_blind_ret.
Qed.

(** ** The mailbox manager *)

(** C8.  The address [create_mailbox] returns is [uid@domain] whatever
    the role: two calls that differ only in the role return the same
    address, and the role shows only in the quota that is logged. *)
Theorem create_mailbox_address_ignores_role
  (config : MailConfig) (uid : string) (r1 r2 : UserRole) (w : World) :
  fst (MailboxManager.create_mailbox config uid r1 w)
    = Ok (uid ++ "@" ++ domain config) /\
  fst (MailboxManager.create_mailbox config uid r2 w)
    = fst (MailboxManager.create_mailbox config uid r1 w) /\
  (forall r,
     snd (MailboxManager.create_mailbox config uid r w)
     = with_trace
         (trace w ++ [Log INFO (MsgCreating (uid ++ "@" ++ domain config)
                                            (_get_quota config r))]) w).
Proof.
  repeat split.
Qed.

(** C10.  [delete_mailbox] returns [None] and leaves the connection, the
    directory and the fault plan as they were; its one effect is a
    WARNING log record.  A directory search issued afterwards therefore
    finds what it would have found without the call, and a turn of the
    polling loop run afterwards has the outcome, and leaves the
    connection, directory and fault plan, it would have had without it. *)
Theorem delete_mailbox_changes_no_state
  (config : MailConfig) (uid : string) (w : World) :
  exists w',
    MailboxManager.delete_mailbox config uid w = (Ok tt, w') /\
    connection w' = connection w /\
    directory w' = directory w /\
    faults w' = faults w /\
    trace w' = (trace w ++ [Log WARNING (MsgDeleting (uid ++ "@" ++ domain config))])%list /\
    (forall base f,
       fst (connection_search base f w') = fst (connection_search base f w)) /\
    (forall listener_config,
       let cycle := FreeIPAListener.watch_iteration listener_config config in
       fst (cycle w') = fst (cycle w) /\
       connection (snd (cycle w')) = connection (snd (cycle w)) /\
       directory (snd (cycle w')) = directory (snd (cycle w)) /\
       faults (snd (cycle w')) = faults (snd (cycle w))).
Proof.
  eexists; split; [reflexivity|].
  repeat split.
  - intros base f.
    rewrite (trace_blind_connection_search base f w).
    now rewrite (trace_blind_connection_search base f (with_trace _ w)).
  - rewrite (trace_blind_watch_iteration listener_config config w).
    now rewrite (trace_blind_watch_iteration listener_config config (with_trace _ w)).
  - rewrite (trace_blind_watch_iteration listener_config config w).
    now rewrite (trace_blind_watch_iteration listener_config config (with_trace _ w)).
  - rewrite (trace_blind_watch_iteration listener_config config w).
    now rewrite (trace_blind_watch_iteration listener_config config (with_trace _ w)).
  - rewrite (trace_blind_watch_iteration listener_config config w).
    now rewrite (trace_blind_watch_iteration listener_config config (with_trace _ w)).
Qed.

(** C5 (what the code does).  Deleting a mailbox directly after archiving
    it, with no time elapsed, is not rejected: both calls return
    normally, and the only trace of the deletion is its log record. *)
Theorem delete_right_after_archive_is_not_rejected
  (config : MailConfig) (uid : string) (w : World) :
  (_ <- MailboxManager.archive_mailbox config uid ;;
   MailboxManager.delete_mailbox config uid) w
  = (Ok tt,
     with_trace
       (trace w ++
        [Log INFO (MsgArchiving (uid ++ "@" ++ domain config)
                                ("/archive/mail/" ++ uid));
         Log WARNING (MsgDeleting (uid ++ "@" ++ domain config))]) w).
Proof.
  unfold MailboxManager.archive_mailbox, MailboxManager.delete_mailbox,
    bind, logger, emit, ret, with_trace; simpl.
  now rewrite <- app_assoc.
Qed.

(** ** Counting in traces *)

Lemma count_app (p : Event -> bool) (t u : list Event) :
  count p (t ++ u) = count p t + count p u.
Proof.
  unfold count. now rewrite filter_app, length_app.
Qed.

Lemma count_zero (p : Event -> bool) (t : list Event) :
  Forall (fun ev => p ev = false) t -> count p t = 0.
Proof.
  unfold count. induction 1 as [|ev t H _ IH]; simpl; [reflexivity|].
  now rewrite H.
Qed.

(** ** What each operation adds to the trace *)

Lemma grows_by_refl (P : Event -> Prop) (w : World) : grows_by P w w.
Proof.
  exists []. split; [now rewrite app_nil_r | constructor].
Qed.

Lemma grows_by_trans (P : Event -> Prop) (w1 w2 w3 : World) :
  grows_by P w1 w2 -> grows_by P w2 w3 -> grows_by P w1 w3.
Proof.
  intros (t & E1 & F1) (u & E2 & F2).
  exists (t ++ u)%list. split.
  - now rewrite E2, E1, app_assoc.
  - now apply Forall_app.
Qed.

Lemma grows_by_same_trace (P : Event -> Prop) (w w' : World) :
  trace w' = trace w -> grows_by P w w'.
Proof.
  intros E. exists []. split; [now rewrite app_nil_r | constructor].
Qed.

Lemma grows_by_weaken (P Q : Event -> Prop) (w w' : World) :
  (forall ev, P ev -> Q ev) -> grows_by P w w' -> grows_by Q w w'.
Proof.
  intros PQ (t & E & F). exists t. split; [exact E|].
  eapply Forall_impl; eauto.
Qed.

Section Emits.

Variable P : Event -> Prop.

Lemma emits_ret {A : Type} (a : A) : emits P (ret a).
Proof. intros w. apply grows_by_refl. Qed.

Lemma emits_raise {A : Type} (e : Exception) : emits P (@raise A e).
Proof. intros w. apply grows_by_refl. Qed.

Lemma emits_bind {A B : Type} (c : M A) (k : A -> M B) :
  emits P c -> (forall a, emits P (k a)) -> emits P (bind c k).
Proof.
  intros Hc Hk w. unfold bind.
  specialize (Hc w).
  destruct (c w) as [[a|e] w1]; simpl in *; [|exact Hc].
  eapply grows_by_trans; [exact Hc | apply Hk].
Qed.

Lemma emits_try_except (body : M unit) (handler : Exception -> M unit) :
  emits P body -> (forall e, emits P (handler e)) ->
  emits P (try_except body handler).
Proof.
  intros Hb Hh w. unfold try_except.
  specialize (Hb w).
  destruct (body w) as [[[]|e] w1]; simpl in *; [exact Hb|].
  eapply grows_by_trans; [exact Hb | apply Hh].
Qed.

Lemma emits_for_each {A : Type} (xs : list A) (body : A -> M unit) :
  (forall x, emits P (body x)) -> emits P (for_each xs body).
Proof.
  intros Hb. induction xs as [|x xs IH]; simpl.
  - apply emits_ret.
  - apply emits_bind; [apply Hb | intros _; exact IH].
Qed.

Lemma emits_emit (ev : Event) : P ev -> emits P (emit ev).
Proof.
  intros H w. exists [ev]. split; [reflexivity | now constructor].
Qed.

Lemma emits_next_fault : emits P next_fault.
Proof.
  intros w. apply grows_by_same_trace. unfold next_fault.
  now destruct (faults w).
Qed.

Lemma emits_the_connection : emits P the_connection.
Proof.
  intros w. apply grows_by_same_trace. unfold the_connection.
  now destruct (connection w).
Qed.

Lemma emits_request (r : LdapRequest) : P (Ldap r) -> emits P (request r).
Proof.
  intros H. unfold request.
  apply emits_bind; [now apply emits_emit | intros _].
  apply emits_bind; [apply emits_next_fault | intros []].
  - apply emits_raise.
  - apply emits_ret.
Qed.

Lemma emits_connection_search (base : string) (f : Filter) :
  P (Ldap (Search base f)) -> emits P (connection_search base f).
Proof.
  intros H. unfold connection_search.
  apply emits_bind; [apply emits_the_connection | intros _].
  apply emits_bind; [now apply emits_request | intros _].
  intros w. apply grows_by_refl.
Qed.

Lemma emits_connection_modify (dn email : string) :
  P (Ldap (Modify dn email)) -> emits P (connection_modify dn email).
Proof.
  intros H. unfold connection_modify.
  apply emits_bind; [apply emits_the_connection | intros _].
  apply emits_bind; [now apply emits_request | intros _].
  intros w. now apply grows_by_same_trace.
Qed.

End Emits.

Lemma emits_weaken {A : Type} (P Q : Event -> Prop) (c : M A) :
  (forall ev, P ev -> Q ev) -> emits P c -> emits Q c.
Proof.
  intros PQ H w. eapply grows_by_weaken; eauto.
Qed.

Section ListenerEmits.

Variable config : FreeIPAConfig.
Variable mail_config : MailConfig.

Lemma emits_process_new_users :
  emits new_users_event (FreeIPAListener._process_new_users config mail_config).
Proof.
  unfold FreeIPAListener._process_new_users.
  apply emits_for_each; intros ou.
  apply emits_bind; [now apply emits_connection_search | intros entries].
  apply emits_for_each; intros entry.
  apply emits_bind; [now apply emits_emit | intros _].
  apply emits_bind.
  - unfold MailboxManager.create_mailbox.
    apply emits_bind; [now apply emits_emit | intros _; apply emits_ret].
  - intros email. unfold FreeIPAListener._update_mail_attribute.
    apply emits_bind; [now apply emits_connection_modify | intros _].
    now apply emits_emit.
Qed.

Lemma emits_process_disabled_users :
  emits disabled_users_event
        (FreeIPAListener._process_disabled_users config mail_config).
Proof.
  unfold FreeIPAListener._process_disabled_users.
  apply emits_bind; [now apply emits_connection_search | intros entries].
  apply emits_for_each; intros entry.
  apply emits_bind; [now apply emits_emit | intros _].
  apply emits_bind; [|intros _; apply emits_ret].
  unfold MailboxManager.archive_mailbox.
  apply emits_bind; [now apply emits_emit | intros _; apply emits_ret].
Qed.

End ListenerEmits.

Lemma new_users_event_not_sleep (ev : Event) : new_users_event ev -> not_sleep ev.
Proof. destruct ev; simpl; [reflexivity | reflexivity | contradiction]. Qed.

Lemma disabled_users_event_not_sleep (ev : Event) :
  disabled_users_event ev -> not_sleep ev.
Proof. destruct ev; simpl; [reflexivity | reflexivity | contradiction]. Qed.

(** ** The polling loop *)

Section Loop.

Variable config : FreeIPAConfig.
Variable mail_config : MailConfig.

Local Abbreviation new_users :=
  (FreeIPAListener._process_new_users config mail_config).
Local Abbreviation disabled_users :=
  (FreeIPAListener._process_disabled_users config mail_config).
Local Abbreviation iteration :=
  (FreeIPAListener.watch_iteration config mail_config).

Lemma iteration_new_users_raises (w w1 : World) (e : Exception) :
  new_users w = (Raise e, w1) -> iteration w = (Ok tt, after_error e w1).
Proof.
  intros H. unfold FreeIPAListener.watch_iteration, bind at 1, try_except.
  unfold bind at 1. rewrite H.
  unfold logger, emit, after_error, with_trace; simpl.
  now rewrite <- app_assoc.
Qed.

Lemma iteration_disabled_users_raises (w w1 w2 : World) (e : Exception) :
  new_users w = (Ok tt, w1) -> disabled_users w1 = (Raise e, w2) ->
  iteration w = (Ok tt, after_error e w2).
Proof.
  intros H1 H2. unfold FreeIPAListener.watch_iteration, bind at 1, try_except.
  unfold bind at 1. rewrite H1.
  unfold bind at 1. rewrite H2.
  unfold logger, emit, after_error, with_trace; simpl.
  now rewrite <- app_assoc.
Qed.

Lemma iteration_no_error (w w1 w2 : World) :
  new_users w = (Ok tt, w1) -> disabled_users w1 = (Ok tt, w2) ->
  iteration w = (Ok tt, with_trace (trace w2 ++ [Sleep 60]) w2).
Proof.
  intros H1 H2. unfold FreeIPAListener.watch_iteration, bind at 1, try_except.
  unfold bind at 1. rewrite H1.
  unfold bind at 1. rewrite H2.
  reflexivity.
Qed.

(** A turn of the loop always comes to its sleep, and sleeps once. *)
Lemma iteration_returns (w : World) :
  exists w',
    iteration w = (Ok tt, w') /\
    count is_sleep (trace w') = S (count is_sleep (trace w)).
Proof.
  pose proof (emits_process_new_users config mail_config w) as G1.
  destruct (new_users w) as [[[]|e] w1] eqn:E1; simpl in G1.
  - pose proof (emits_process_disabled_users config mail_config w1) as G2.
    destruct G1 as (t1 & T1 & F1).
    destruct (disabled_users w1) as [[[]|e] w2] eqn:E2; simpl in G2;
      destruct G2 as (t2 & T2 & F2).
    + eexists; split; [now apply (iteration_no_error w w1 w2)|].
      simpl. rewrite T2, T1, !count_app.
      rewrite (count_zero is_sleep t1), (count_zero is_sleep t2).
      * simpl. unfold count at 2. simpl. lia.
      * eapply Forall_impl; [apply disabled_users_event_not_sleep | exact F2].
      * eapply Forall_impl; [apply new_users_event_not_sleep | exact F1].
    + eexists; split; [eapply iteration_disabled_users_raises; eassumption|].
      simpl. rewrite T2, T1, !count_app.
      rewrite (count_zero is_sleep t1), (count_zero is_sleep t2).
      * simpl. unfold count at 2. simpl. lia.
      * eapply Forall_impl; [apply disabled_users_event_not_sleep | exact F2].
      * eapply Forall_impl; [apply new_users_event_not_sleep | exact F1].
  - destruct G1 as (t1 & T1 & F1).
    eexists; split; [eapply iteration_new_users_raises; eassumption|].
    simpl. rewrite T1, !count_app.
    rewrite (count_zero is_sleep t1).
    + simpl. unfold count at 2. simpl. lia.
    + eapply Forall_impl; [apply new_users_event_not_sleep | exact F1].
Qed.

(** C7.  No turn of the polling loop ends the loop: whatever the world
    (connected or not, whatever LDAP requests fail), the first [n] turns
    all complete, each going on to its sleep, so that [n] turns leave
    exactly [n] more sleeps in the trace and the loop is ready for turn
    [n+1]. *)
Theorem watch_loop_never_exits_on_error (n : nat) (w : World) :
  exists w',
    FreeIPAListener.watch_loop config mail_config n w = (Ok tt, w') /\
    count is_sleep (trace w') = count is_sleep (trace w) + n.
Proof.
  revert w. induction n as [|n IH]; intros w; simpl.
  - exists w. split; [reflexivity | lia].
  - destruct (iteration_returns w) as (w1 & E1 & C1).
    destruct (IH w1) as (w' & E' & C').
    exists w'. split.
    + unfold bind. now rewrite E1.
    + lia.
Qed.

(** C2 (as the code has it).  The three steps of a turn share one [try]
    block.  When the new-users step raises, the exception is logged and
    the turn goes to its sleep: between the start of the turn and the
    error record the trace holds only what the new-users step did, so no
    search for disabled users is issued and nothing is archived.  When
    the new-users step succeeds and the disabled-users step raises, the
    turn ends the same way. *)
Theorem error_in_one_step_skips_the_later_steps (w : World) :
  (forall e w1,
     new_users w = (Raise e, w1) ->
     iteration w = (Ok tt, after_error e w1) /\
     exists t,
       trace w1 = (trace w ++ t)%list /\
       (forall base, ~ In (Ldap (Search base disabled_users_filter)) t) /\
       (forall email path, ~ In (Log INFO (MsgArchiving email path)) t)) /\
  (forall e w1 w2,
     new_users w = (Ok tt, w1) -> disabled_users w1 = (Raise e, w2) ->
     iteration w = (Ok tt, after_error e w2)).
Proof.
  split.
  - intros e w1 H. split; [now apply iteration_new_users_raises|].
    pose proof (emits_process_new_users config mail_config w) as G.
    rewrite H in G. simpl in G.
    destruct G as (t & T & F).
    exists t. split; [exact T|].
    rewrite Forall_forall in F.
    split.
    + intros base Hin. apply F in Hin. simpl in Hin. discriminate.
    + intros email path Hin. apply F in Hin. exact Hin.
  - intros e w1 w2. apply iteration_disabled_users_raises.
Qed.

End Loop.

Lemma error_in_one_step_skips_the_later_steps_witness :
  let cycle := FreeIPAListener.watch_iteration default_FreeIPAConfig default_MailConfig in
  let new_users := FreeIPAListener._process_new_users default_FreeIPAConfig default_MailConfig in
  let disabled_users :=
    FreeIPAListener._process_disabled_users default_FreeIPAConfig default_MailConfig in
  let w := mk_world [anowak] [true] in
  let v := mk_world [anowak] [false; false; false; true] in
  cycle w
  = (Ok tt,
     after_error
       (LDAPException (Search "ou=uczniowie,dc=zsel,dc=opole,dc=pl" new_users_filter))
       (snd (new_users w))) /\
  cycle v
  = (Ok tt,
     after_error
       (LDAPException (Search "dc=zsel,dc=opole,dc=pl" disabled_users_filter))
       (snd (disabled_users (snd (new_users v))))).
Proof.
  intros cycle new_users disabled_users w v. split.
  - apply (proj1 (error_in_one_step_skips_the_later_steps
                    default_FreeIPAConfig default_MailConfig w)).
    reflexivity.
  - apply (proj2 (error_in_one_step_skips_the_later_steps
                    default_FreeIPAConfig default_MailConfig v)
             _ (snd (new_users v))).
    + reflexivity.
    + reflexivity.
Defined.

(** C2 (as the claim has it) fails.  The directory holds the disabled
    user anowak, and the first LDAP request of the turn, the search for
    new users, fails.  Run on its own in the world the failure leaves,
    the disabled-users step succeeds and archives anowak; the turn,
    however, never gets to it: it issues the one failed search, logs the
    error and sleeps. *)
Lemma failed_new_users_query_skips_disabled_users :
  let new_users := FreeIPAListener._process_new_users default_FreeIPAConfig default_MailConfig in
  let disabled_users :=
    FreeIPAListener._process_disabled_users default_FreeIPAConfig default_MailConfig in
  let cycle := FreeIPAListener.watch_iteration default_FreeIPAConfig default_MailConfig in
  let w := mk_world [anowak] [true] in
  let failed := Search "ou=uczniowie,dc=zsel,dc=opole,dc=pl" new_users_filter in
  fst (new_users w) = Raise (LDAPException failed) /\
  fst (disabled_users (snd (new_users w))) = Ok tt /\
  count (is_archiving_of "anowak@zsel.opole.pl")
        (trace (snd (disabled_users (snd (new_users w))))) = 1 /\
  fst (cycle w) = Ok tt /\
  trace (snd (cycle w))
  = [Ldap failed; Log ERROR (MsgWatchLoopError (LDAPException failed)); Sleep 60] /\
  count (is_archiving_of "anowak@zsel.opole.pl") (trace (snd (cycle w))) = 0.
Proof.
  repeat split.
Qed.

(** ** Disabled users *)

Lemma anowak_cycle (w : World) :
  connection w <> None -> directory w = [anowak] -> faults w = [] ->
  FreeIPAListener.watch_iteration default_FreeIPAConfig default_MailConfig w
  = (Ok tt,
     with_trace
       (trace w ++
        [Ldap (Search "ou=uczniowie,dc=zsel,dc=opole,dc=pl" new_users_filter);
         Ldap (Search "ou=nauczyciele,dc=zsel,dc=opole,dc=pl" new_users_filter);
         Ldap (Search "ou=administracja,dc=zsel,dc=opole,dc=pl" new_users_filter);
         Ldap (Search "dc=zsel,dc=opole,dc=pl" disabled_users_filter);
         Log INFO (MsgDisabledUser "anowak");
         Log INFO (MsgArchiving "anowak@zsel.opole.pl" "/archive/mail/anowak");
         Sleep 60]) w).
Proof.
  destruct w as [[srv|] dir plan t]; simpl; intros C D F; subst;
    [|congruence].
  unfold with_trace; simpl.
  cbv -[app]. rewrite <- !app_assoc. reflexivity.
Qed.

(** C1 (what the code does).  With the disabled user anowak in the
    directory, mail attribute set, every turn of the loop archives the
    mailbox again: after [n] turns the trace holds [n] archive records
    for anowak, and the directory is as it was. *)
Theorem disabled_user_is_archived_again_every_cycle (n : nat) :
  exists w',
    FreeIPAListener.watch_loop default_FreeIPAConfig default_MailConfig n
      (mk_world [anowak] []) = (Ok tt, w') /\
    directory w' = [anowak] /\
    count (is_archiving_of "anowak@zsel.opole.pl") (trace w') = n.
Proof.
  assert (G : forall n w,
             connection w <> None -> directory w = [anowak] -> faults w = [] ->
             exists w',
               FreeIPAListener.watch_loop default_FreeIPAConfig default_MailConfig n w
               = (Ok tt, w') /\
               directory w' = [anowak] /\
               count (is_archiving_of "anowak@zsel.opole.pl") (trace w')
               = count (is_archiving_of "anowak@zsel.opole.pl") (trace w) + n).
  { clear n. induction n as [|n IH]; intros w C D F; simpl.
    - exists w. repeat split; [exact D | lia].
    - unfold bind. rewrite (anowak_cycle w C D F).
      edestruct IH as (w' & E & D' & N); [| | |exists w'; split; [exact E|]].
      + exact C.
      + exact D.
      + exact F.
      + split; [exact D'|]. rewrite N. simpl. rewrite count_app.
        unfold count at 2. simpl. lia. }
  destruct (G n (mk_world [anowak] [])) as (w' & E & D & N);
    [discriminate | reflexivity | reflexivity |].
  exists w'. repeat split; [exact E | exact D | exact N].
Qed.

(** ** New users *)

Lemma matches_new_users_filter (e : Entry) :
  matches new_users_filter e = person e && negb (is_some (mail e)).
Proof. reflexivity. Qed.

Lemma same_name_same_entry (dir : list Entry) (a b : Entry) :
  NoDup (map entry_dn dir) -> In a dir -> In b dir ->
  entry_dn a = entry_dn b -> a = b.
Proof.
  induction dir as [|x dir IH]; simpl; intros N Ha Hb E; [contradiction|].
  inversion N as [|? ? Hx N']; subst.
  destruct Ha as [->|Ha], Hb as [->|Hb].
  - reflexivity.
  - exfalso. apply Hx. rewrite E. now apply in_map.
  - exfalso. apply Hx. rewrite <- E. now apply in_map.
  - now apply IH.
Qed.

(** A search result inherits the distinctness of names from the
    directory. *)
Lemma search_result_distinct_names (dir : list Entry) (base : string)
  (f : Filter) :
  NoDup (map entry_dn dir) -> NoDup (map entry_dn (search_result dir base f)).
Proof.
  unfold search_result.
  induction dir as [|x dir IH]; intros N; simpl; [constructor|].
  apply NoDup_cons_iff in N as [Hx N].
  destruct (in_subtree base (entry_dn x) && matches f x); [|now apply IH].
  simpl. apply NoDup_cons; [|now apply IH].
  rewrite in_map_iff. intros (y & E & Hy).
  apply filter_In in Hy as [Hy _].
  apply Hx. rewrite <- E. now apply in_map.
Qed.

Lemma names_after_replace_mail (dn email : string) (dir : list Entry) :
  map entry_dn (map (replace_mail dn email) dir) = map entry_dn dir.
Proof.
  rewrite map_map. apply map_ext. intros x. unfold replace_mail.
  now destruct (String.eqb (entry_dn x) dn).
Qed.

Lemma replace_mail_other (dn email : string) (y : Entry) :
  entry_dn y <> dn -> replace_mail dn email y = y.
Proof.
  intros H. unfold replace_mail.
  destruct (String.eqb_spec (entry_dn y) dn); [contradiction | reflexivity].
Qed.

Lemma replace_mail_same (email : string) (y : Entry) :
  replace_mail (entry_dn y) email y = with_mail email y.
Proof.
  unfold replace_mail. now rewrite String.eqb_refl.
Qed.

Lemma healthy_search (base : string) (f : Filter) (w : World) :
  healthy w ->
  connection_search base f w
  = (Ok (search_result (directory w) base f),
     with_trace (trace w ++ [Ldap (Search base f)]) w).
Proof.
  intros [C F]. destruct w as [[srv|] dir plan t]; simpl in *;
    [subst plan; reflexivity | congruence].
Qed.

Lemma healthy_with_trace (t : list Event) (w : World) :
  healthy w -> healthy (with_trace t w).
Proof. intros [C F]. now split. Qed.

Lemma provisioned_preserved (mail_config : MailConfig) (ou : string)
  (e : Entry) (w w' : World) :
  provisioned mail_config ou e w ->
  (exists t, trace w' = (trace w ++ t)%list) ->
  In (with_mail (uid e ++ "@" ++ domain mail_config) e) (directory w') ->
  provisioned mail_config ou e w'.
Proof.
  intros (H1 & H2 & _) (t & T) H3. unfold provisioned.
  rewrite T. repeat split; try (apply in_or_app; now left). exact H3.
Qed.

Lemma bind_ok {A B : Type} (c : M A) (k : A -> M B) (w w1 : World) (a : A)
  (r : Result B * World) :
  c w = (Ok a, w1) -> k a w1 = r -> bind c k w = r.
Proof. intros E1 E2. unfold bind. now rewrite E1. Qed.

Lemma for_each_cons_ok {A : Type} (x : A) (xs : list A) (body : A -> M unit)
  (w w1 w' : World) :
  body x w = (Ok tt, w1) -> for_each xs body w1 = (Ok tt, w') ->
  for_each (x :: xs) body w = (Ok tt, w').
Proof. intros E1 E2. simpl. now apply (bind_ok _ _ w w1 tt). Qed.

Section NewUsers.

Variable config : FreeIPAConfig.
Variable mail_config : MailConfig.

(** The body of the inner loop of [_process_new_users], for an entry
    found under [ou], and the body of its outer loop. *)
Local Abbreviation handle ou :=
  (fun entry : Entry =>
     logger INFO (MsgNewUser (uid entry) (_detect_role ou)) ;;
     email <- MailboxManager.create_mailbox mail_config (uid entry) (_detect_role ou) ;;
     FreeIPAListener._update_mail_attribute (entry_dn entry) email).

Local Abbreviation visit :=
  (fun ou : string =>
     entries <- connection_search (ou ++ "," ++ base_dn config) new_users_filter ;;
     for_each entries (handle ou)).

Local Abbreviation address x := (uid x ++ "@" ++ domain mail_config).

Lemma process_new_users_unfold :
  FreeIPAListener._process_new_users config mail_config
  = for_each (watch_ous config) visit.
Proof. reflexivity. Qed.

Lemma handle_healthy (ou : string) (x : Entry) (w : World) :
  healthy w ->
  exists w',
    handle ou x w = (Ok tt, w') /\
    healthy w' /\
    directory w' = map (replace_mail (entry_dn x) (address x)) (directory w) /\
    trace w'
    = (trace w ++
       [Log INFO (MsgNewUser (uid x) (_detect_role ou));
        Log INFO (MsgCreating (address x) (_get_quota mail_config (_detect_role ou)));
        Ldap (Modify (entry_dn x) (address x));
        Log INFO (MsgMailUpdated (entry_dn x) (address x))])%list.
Proof.
  intros [C F]. destruct w as [[srv|] dir plan t]; simpl in *; [|congruence].
  subst plan. eexists. split; [reflexivity|]. simpl.
  repeat split; [discriminate|].
  now rewrite <- !app_assoc.
Qed.

(** Entries named otherwise leave the entry named [d] alone. *)
Lemma inner_other (ou d : string) (xs : list Entry) :
  forall w,
    healthy w ->
    (forall x, In x xs -> entry_dn x <> d) ->
    exists w',
      for_each xs (handle ou) w = (Ok tt, w') /\
      healthy w' /\
      map entry_dn (directory w') = map entry_dn (directory w) /\
      (exists t, trace w' = (trace w ++ t)%list) /\
      (forall y, entry_dn y = d -> In y (directory w) -> In y (directory w')).
Proof.
  induction xs as [|x xs IH]; intros w H Hd.
  - exists w. split; [reflexivity|]. split; [exact H|]. split; [reflexivity|].
    split; [exists []; now rewrite app_nil_r | auto].
  - destruct (handle_healthy ou x w H) as (w1 & E1 & H1 & D1 & T1).
    destruct (IH w1 H1) as (w' & E' & H' & N' & (t & T') & K');
      [intros y Hy; apply Hd; now right|].
    exists w'. split; [|split; [exact H'|split; [|split]]].
    + now apply (for_each_cons_ok _ _ _ w w1).
    + now rewrite N', D1, names_after_replace_mail.
    + eexists. rewrite T', T1, <- app_assoc. reflexivity.
    + intros y Ey Hy. apply K'; [exact Ey|].
      rewrite D1. rewrite <- (replace_mail_other (entry_dn x) (address x) y).
      * now apply in_map.
      * rewrite Ey. intros Q. apply (Hd x); [now left | now symmetry].
Qed.

Section OneEntry.

Variable e : Entry.

Lemma inner_hit (ou : string) (xs : list Entry) :
  forall w,
    healthy w ->
    NoDup (map entry_dn xs) -> In e xs -> In e (directory w) ->
    exists w',
      for_each xs (handle ou) w = (Ok tt, w') /\
      healthy w' /\
      map entry_dn (directory w') = map entry_dn (directory w) /\
      provisioned mail_config ou e w'.
Proof.
  induction xs as [|x xs IH]; intros w H N Hin Hdir; [contradiction|].
  inversion N as [|? ? Hx N']; subst.
  destruct (handle_healthy ou x w H) as (w1 & E1 & H1 & D1 & T1).
  destruct Hin as [->|Hin].
  - assert (P1 : provisioned mail_config ou e w1).
    { unfold provisioned. rewrite T1, D1. repeat split.
      - apply in_or_app; right; simpl; tauto.
      - apply in_or_app; right; simpl; tauto.
      - rewrite <- replace_mail_same. now apply in_map. }
    destruct (inner_other ou (entry_dn e) xs w1 H1)
      as (w' & E' & H' & N'' & G' & K').
    { intros y Hy Q. apply Hx. rewrite <- Q. now apply in_map. }
    exists w'. split; [|split; [exact H'|split]].
    + now apply (for_each_cons_ok _ _ _ w w1).
    + now rewrite N'', D1, names_after_replace_mail.
    + apply (provisioned_preserved _ _ _ w1); [exact P1 | exact G' |].
      apply K'; [reflexivity | apply P1].
  - assert (Hne : entry_dn e <> entry_dn x).
    { intros Q. apply Hx. rewrite <- Q. now apply in_map. }
    destruct (IH w1 H1 N' Hin) as (w' & E' & H' & N'' & P').
    { rewrite D1. rewrite <- (replace_mail_other (entry_dn x) (address x) e Hne).
      now apply in_map. }
    exists w'. split; [|split; [exact H'|split; [|exact P']]].
    + now apply (for_each_cons_ok _ _ _ w w1).
    + now rewrite N'', D1, names_after_replace_mail.
Qed.

Lemma visit_done (ou ou' : string) (w : World) :
  healthy w -> NoDup (map entry_dn (directory w)) ->
  provisioned mail_config ou' e w ->
  exists w',
    visit ou w = (Ok tt, w') /\
    healthy w' /\ NoDup (map entry_dn (directory w')) /\
    provisioned mail_config ou' e w'.
Proof.
  intros H N P.
  set (base := ou ++ "," ++ base_dn config).
  set (w1 := with_trace (trace w ++ [Ldap (Search base new_users_filter)]) w).
  destruct (inner_other ou (entry_dn e)
              (search_result (directory w) base new_users_filter) w1)
    as (w' & E' & H' & N' & (t & T') & K').
  { now apply healthy_with_trace. }
  { intros x Hx Q. apply filter_In in Hx as [Hx Hm].
    assert (x = with_mail (address e) e) as ->.
    { apply (same_name_same_entry (directory w)); auto. apply P. }
    apply andb_true_iff in Hm as [_ Hm].
    rewrite matches_new_users_filter in Hm. simpl in Hm.
    rewrite andb_false_r in Hm. discriminate. }
  exists w'. split; [|split; [exact H'|split]].
  - eapply bind_ok; [now apply healthy_search | exact E'].
  - now rewrite N'.
  - apply (provisioned_preserved _ _ _ w); [exact P | |].
    + exists ([Ldap (Search base new_users_filter)] ++ t)%list.
      rewrite T'. unfold w1; simpl. now rewrite <- app_assoc.
    + apply K'; [reflexivity | apply P].
Qed.

Lemma visit_miss (ou : string) (w : World) :
  healthy w -> NoDup (map entry_dn (directory w)) ->
  In e (directory w) ->
  in_subtree (ou ++ "," ++ base_dn config) (entry_dn e) = false ->
  exists w',
    visit ou w = (Ok tt, w') /\
    healthy w' /\ NoDup (map entry_dn (directory w')) /\
    In e (directory w').
Proof.
  intros H N Hin Hout.
  set (base := ou ++ "," ++ base_dn config) in *.
  set (w1 := with_trace (trace w ++ [Ldap (Search base new_users_filter)]) w).
  destruct (inner_other ou (entry_dn e)
              (search_result (directory w) base new_users_filter) w1)
    as (w' & E' & H' & N' & _ & K').
  { now apply healthy_with_trace. }
  { intros x Hx Q. apply filter_In in Hx as [Hx Hm].
    assert (x = e) as -> by (apply (same_name_same_entry (directory w)); auto).
    rewrite Hout in Hm. discriminate. }
  exists w'. split; [|split; [exact H'|split]].
  - eapply bind_ok; [now apply healthy_search | exact E'].
  - now rewrite N'.
  - apply K'; [reflexivity | exact Hin].
Qed.

Lemma visit_hit (ou : string) (w : World) :
  healthy w -> NoDup (map entry_dn (directory w)) ->
  In e (directory w) -> person e = true -> mail e = None ->
  in_subtree (ou ++ "," ++ base_dn config) (entry_dn e) = true ->
  exists w',
    visit ou w = (Ok tt, w') /\
    healthy w' /\ NoDup (map entry_dn (directory w')) /\
    provisioned mail_config ou e w'.
Proof.
  intros H N Hin Hp Hm Hsub.
  set (base := ou ++ "," ++ base_dn config) in *.
  set (w1 := with_trace (trace w ++ [Ldap (Search base new_users_filter)]) w).
  destruct (inner_hit ou (search_result (directory w) base new_users_filter) w1)
    as (w' & E' & H' & N' & P').
  { now apply healthy_with_trace. }
  { now apply search_result_distinct_names. }
  { apply filter_In. split; [exact Hin|].
    now rewrite Hsub, matches_new_users_filter, Hp, Hm. }
  { exact Hin. }
  exists w'. split; [|split; [exact H'|split; [|exact P']]].
  - eapply bind_ok; [now apply healthy_search | exact E'].
  - now rewrite N'.
Qed.

Lemma sweep_done (ou' : string) (ous : list string) :
  forall w,
    healthy w -> NoDup (map entry_dn (directory w)) ->
    provisioned mail_config ou' e w ->
    exists w',
      for_each ous visit w = (Ok tt, w') /\
      healthy w' /\ provisioned mail_config ou' e w'.
Proof.
  induction ous as [|ou ous IH]; intros w H N P.
  - now exists w.
  - destruct (visit_done ou ou' w H N P) as (w1 & E1 & H1 & N1 & P1).
    destruct (IH w1 H1 N1 P1) as (w' & E' & H' & P').
    exists w'. split; [|now split].
    now apply (for_each_cons_ok _ _ _ w w1).
Qed.

Lemma sweep_provisions (ous : list string) :
  forall w,
    healthy w -> NoDup (map entry_dn (directory w)) ->
    In e (directory w) -> person e = true -> mail e = None ->
    (exists ou, In ou ous /\
                in_subtree (ou ++ "," ++ base_dn config) (entry_dn e) = true) ->
    exists w' ou',
      for_each ous visit w = (Ok tt, w') /\
      healthy w' /\
      first_unit_holding (base_dn config) (entry_dn e) ous ou' /\
      provisioned mail_config ou' e w'.
Proof.
  induction ous as [|ou ous IH]; intros w H N Hin Hp Hm (o & Ho & Hsub).
  - contradiction.
  - destruct (in_subtree (ou ++ "," ++ base_dn config) (entry_dn e)) eqn:Here.
    + destruct (visit_hit ou w H N Hin Hp Hm Here) as (w1 & E1 & H1 & N1 & P1).
      destruct (sweep_done ou ous w1 H1 N1 P1) as (w' & E' & H' & P').
      exists w', ou. split; [|split; [exact H'|split; [|exact P']]].
      * now apply (for_each_cons_ok _ _ _ w w1).
      * exists [], ous. repeat split; [constructor | exact Here].
    + destruct (visit_miss ou w H N Hin Here) as (w1 & E1 & H1 & N1 & Hin1).
      destruct (IH w1 H1 N1 Hin1 Hp Hm) as (w' & ou' & E' & H' & F' & P').
      { exists o. split; [|exact Hsub].
        destruct Ho as [->|Ho]; [congruence | exact Ho]. }
      exists w', ou'. split; [|split; [exact H'|split; [|exact P']]].
      * now apply (for_each_cons_ok _ _ _ w w1).
      * destruct F' as (before & after & -> & Fb & Fh).
        exists (ou :: before), after. repeat split; [|exact Fh].
        now constructor.
Qed.

End OneEntry.

Lemma disabled_users_healthy (w : World) :
  healthy w ->
  exists w',
    FreeIPAListener._process_disabled_users config mail_config w = (Ok tt, w') /\
    directory w' = directory w /\
    exists t, trace w' = (trace w ++ t)%list.
Proof.
  intros H. unfold FreeIPAListener._process_disabled_users, bind at 1.
  rewrite (healthy_search _ _ w H).
  set (w1 := with_trace _ w).
  assert (D1 : directory w1 = directory w) by reflexivity.
  assert (T1 : exists t, trace w1 = (trace w ++ t)%list) by (now eexists).
  clearbody w1. revert w1 D1 T1.
  induction (search_result (directory w) (base_dn config) disabled_users_filter)
    as [|x xs IH]; intros w1 D1 T1.
  - now exists w1.
  - simpl for_each. unfold bind at 1. simpl.
    apply IH; [exact D1|].
    destruct T1 as (t & T1). simpl. rewrite T1.
    eexists. rewrite <- !app_assoc. reflexivity.
Qed.

End NewUsers.

(** C3 (as the code has it).  In a turn of the loop whose LDAP requests
    go through, every person entry without a [mail] attribute that lies
    under one of the watched units is provisioned: its mailbox is created
    with the address [uid@domain] and the quota of the role detected from
    the first watched unit that holds the entry, a request to write that
    address to the entry is sent, and the entry's [mail] attribute in the
    directory becomes that address.  With the default configuration,
    jkowalski under ou=uczniowie gets "jkowalski@zsel.opole.pl" with a
    quota of 1 GiB. *)
Theorem new_user_under_watched_unit_is_provisioned :
  (forall config mail_config w e,
     healthy w ->
     NoDup (map entry_dn (directory w)) ->
     In e (directory w) -> person e = true -> mail e = None ->
     (exists ou, In ou (watch_ous config) /\
                 in_subtree (ou ++ "," ++ base_dn config) (entry_dn e) = true) ->
     exists w' ou',
       FreeIPAListener.watch_iteration config mail_config w = (Ok tt, w') /\
       first_unit_holding (base_dn config) (entry_dn e) (watch_ous config) ou' /\
       provisioned mail_config ou' e w') /\
  (let w' := snd (FreeIPAListener.watch_iteration
                    default_FreeIPAConfig default_MailConfig
                    (mk_world [jkowalski] [])) in
   In (Log INFO (MsgCreating "jkowalski@zsel.opole.pl" GiB)) (trace w') /\
   In (Ldap (Modify (entry_dn jkowalski) "jkowalski@zsel.opole.pl")) (trace w') /\
   directory w' = [with_mail "jkowalski@zsel.opole.pl" jkowalski]).
Proof.
  split.
  - intros config mail_config w e H N Hin Hp Hm Hou.
    destruct (sweep_provisions config mail_config e (watch_ous config)
                w H N Hin Hp Hm Hou)
      as (w1 & ou' & E1 & H1 & F1 & P1).
    destruct (disabled_users_healthy config mail_config w1 H1)
      as (w2 & E2 & D2 & G2).
    exists (with_trace (trace w2 ++ [Sleep 60]) w2), ou'.
    split; [|split; [exact F1|]].
    + apply (iteration_no_error config mail_config w w1 w2); assumption.
    + apply (provisioned_preserved _ _ _ w1); [exact P1 | |].
      * destruct G2 as (t & T2). exists (t ++ [Sleep 60])%list.
        simpl. now rewrite T2, <- app_assoc.
      * simpl. rewrite D2. apply P1.
  - cbv zeta. split; [|split].
    + vm_compute. tauto.
    + vm_compute. tauto.
    + reflexivity.
Qed.

Lemma new_user_under_watched_unit_is_provisioned_witness :
  exists w' ou',
    FreeIPAListener.watch_iteration default_FreeIPAConfig default_MailConfig
      (mk_world [jkowalski; anowak; dyrektor] []) = (Ok tt, w') /\
    first_unit_holding (base_dn default_FreeIPAConfig) (entry_dn jkowalski)
      (watch_ous default_FreeIPAConfig) ou' /\
    provisioned default_MailConfig ou' jkowalski w'.
Proof.
  apply (proj1 new_user_under_watched_unit_is_provisioned).
  - split; [discriminate | reflexivity].
  - repeat constructor; simpl; intuition discriminate.
  - simpl; tauto.
  - reflexivity.
  - reflexivity.
  - exists "ou=uczniowie". split; [simpl; tauto | reflexivity].
Defined.

(** C3 (as the claim has it) fails.  With the default configuration the
    watched units are uczniowie, nauczyciele and administracja.  The
    person entry dyrektor under ou=dyrekcja has no [mail] attribute; a
    turn of the loop, all requests going through, searches the three
    watched units and the disabled users and sleeps.  No mailbox is
    created, and the entry still has no [mail] attribute. *)
Lemma identity_outside_watched_units_is_not_provisioned :
  let cycle := FreeIPAListener.watch_iteration default_FreeIPAConfig default_MailConfig in
  let w := mk_world [dyrektor] [] in
  person dyrektor = true /\ mail dyrektor = None /\
  fst (cycle w) = Ok tt /\
  directory (snd (cycle w)) = [dyrektor] /\
  trace (snd (cycle w))
  = [Ldap (Search "ou=uczniowie,dc=zsel,dc=opole,dc=pl" new_users_filter);
     Ldap (Search "ou=nauczyciele,dc=zsel,dc=opole,dc=pl" new_users_filter);
     Ldap (Search "ou=administracja,dc=zsel,dc=opole,dc=pl" new_users_filter);
     Ldap (Search "dc=zsel,dc=opole,dc=pl" disabled_users_filter);
     Sleep 60].
Proof.
  repeat split.
Qed.

(** * Further properties of the listener and the mailbox manager *)

(** ** Addresses and archive paths *)

Lemma chars_of_append (a b : string) :
  list_ascii_of_string (a ++ b)
  = (list_ascii_of_string a ++ list_ascii_of_string b)%list.
Proof.
  induction a as [|c a IH]; simpl; [reflexivity | now rewrite IH].
Qed.

Lemma append_same_suffix (a b s : string) : a ++ s = b ++ s -> a = b.
Proof.
  intros E. apply (f_equal list_ascii_of_string) in E.
  rewrite !chars_of_append in E. apply app_inv_tail in E.
  apply (f_equal string_of_list_ascii) in E.
  now rewrite !string_of_list_ascii_of_string in E.
Qed.

(** X1.  Two different logins never share an address or an archive
    path: [create_mailbox] and [archive_mailbox] are injective in the
    login, whatever the roles and the worlds they run in. *)
Theorem different_uids_get_different_addresses_and_archives
  (config : MailConfig) (u1 u2 : string) (r1 r2 : UserRole) (w1 w2 : World) :
  u1 <> u2 ->
  fst (MailboxManager.create_mailbox config u1 r1 w1)
    <> fst (MailboxManager.create_mailbox config u2 r2 w2) /\
  fst (MailboxManager.archive_mailbox config u1 w1)
    <> fst (MailboxManager.archive_mailbox config u2 w2).
Proof.
  intros N. split; intros E; apply N; simpl in E; injection E as E.
  - now apply append_same_suffix in E.
  - exact E.
Qed.

Lemma different_uids_get_different_addresses_and_archives_witness :
  fst (MailboxManager.create_mailbox default_MailConfig "anowak" NAUCZYCIEL
         (mk_world [] []))
    <> fst (MailboxManager.create_mailbox default_MailConfig "anowakowski" UCZEN
              (mk_world [anowak] [])) /\
  fst (MailboxManager.archive_mailbox default_MailConfig "anowak" (mk_world [] []))
    <> fst (MailboxManager.archive_mailbox default_MailConfig "anowakowski"
              (mk_world [anowak] [])).
Proof.
  apply different_uids_get_different_addresses_and_archives.
  discriminate.
Defined.

(** ** Relations kept by every step *)

Section Preserves.

Variable R : World -> World -> Prop.
Hypothesis R_refl : forall w, R w w.
Hypothesis R_trans : forall a b c, R a b -> R b c -> R a c.
Hypothesis R_trace : forall t w, R w (with_trace t w).
Hypothesis R_faults : forall f w, R w (with_faults f w).

Lemma preserves_ret {A : Type} (a : A) : preserves R (ret a).
Proof. intros w. apply R_refl. Qed.

Lemma preserves_raise {A : Type} (e : Exception) : preserves R (@raise A e).
Proof. intros w. apply R_refl. Qed.

Lemma preserves_bind {A B : Type} (c : M A) (k : A -> M B) :
  preserves R c -> (forall a, preserves R (k a)) -> preserves R (bind c k).
Proof.
  intros Hc Hk w. unfold bind. specialize (Hc w).
  destruct (c w) as [[a|e] w1]; simpl in *; [|exact Hc].
  eapply R_trans; [exact Hc | apply Hk].
Qed.

Lemma preserves_try_except (body : M unit) (handler : Exception -> M unit) :
  preserves R body -> (forall e, preserves R (handler e)) ->
  preserves R (try_except body handler).
Proof.
  intros Hb Hh w. unfold try_except. specialize (Hb w).
  destruct (body w) as [[[]|e] w1]; simpl in *; [exact Hb|].
  eapply R_trans; [exact Hb | apply Hh].
Qed.

Lemma preserves_for_each {A : Type} (xs : list A) (body : A -> M unit) :
  (forall x, preserves R (body x)) -> preserves R (for_each xs body).
Proof.
  intros Hb. induction xs as [|x xs IH]; simpl.
  - apply preserves_ret.
  - apply preserves_bind; [apply Hb | intros _; exact IH].
Qed.

Lemma preserves_emit (ev : Event) : preserves R (emit ev).
Proof. intros w. apply R_trace. Qed.

Lemma preserves_request (r : LdapRequest) : preserves R (request r).
Proof.
  unfold request.
  apply preserves_bind; [apply preserves_emit | intros _].
  apply preserves_bind.
  - intros w. unfold next_fault. destruct (faults w); simpl;
      [apply R_refl | apply R_faults].
  - intros []; [apply preserves_raise | apply preserves_ret].
Qed.

Lemma preserves_connection_search (base : string) (f : Filter) :
  preserves R (connection_search base f).
Proof.
  unfold connection_search.
  apply preserves_bind.
  - intros w. unfold the_connection. destruct (connection w); apply R_refl.
  - intros _. apply preserves_bind; [apply preserves_request | intros _].
    intros w. apply R_refl.
Qed.

Variable config : FreeIPAConfig.
Variable mail_config : MailConfig.

Lemma preserves_process_disabled_users :
  preserves R (FreeIPAListener._process_disabled_users config mail_config).
Proof.
  unfold FreeIPAListener._process_disabled_users.
  apply preserves_bind; [apply preserves_connection_search | intros xs].
  apply preserves_for_each; intros x.
  apply preserves_bind; [apply preserves_emit | intros _].
  apply preserves_bind; [|intros _; apply preserves_ret].
  apply preserves_bind; [apply preserves_emit | intros _; apply preserves_ret].
Qed.

Hypothesis R_modify :
  forall dn u w,
    R w (with_directory
           (map (replace_mail dn (u ++ "@" ++ domain mail_config)) (directory w))
           w).

(** [bind] when the continuation is only known to behave on the values
    the first computation returns. *)
Lemma preserves_bind_returned {A B : Type} (Q : A -> Prop) (c : M A)
  (k : A -> M B) :
  preserves R c ->
  (forall w a, fst (c w) = Ok a -> Q a) ->
  (forall a, Q a -> preserves R (k a)) ->
  preserves R (bind c k).
Proof.
  intros Hc Hq Hk w. unfold bind. specialize (Hc w). specialize (Hq w).
  destruct (c w) as [[a|e] w1]; simpl in *; [|exact Hc].
  eapply R_trans; [exact Hc | apply Hk; now apply Hq].
Qed.

Lemma preserves_connection_modify (dn u : string) :
  preserves R (connection_modify dn (u ++ "@" ++ domain mail_config)).
Proof.
  unfold connection_modify.
  apply preserves_bind.
  - intros w. unfold the_connection. destruct (connection w); apply R_refl.
  - intros _. apply preserves_bind; [apply preserves_request | intros _].
    intros w. apply R_modify.
Qed.

Lemma preserves_process_new_users :
  preserves R (FreeIPAListener._process_new_users config mail_config).
Proof.
  unfold FreeIPAListener._process_new_users.
  apply preserves_for_each; intros ou.
  apply preserves_bind; [apply preserves_connection_search | intros xs].
  apply preserves_for_each; intros x.
  apply preserves_bind; [apply preserves_emit | intros _].
  apply (preserves_bind_returned
           (fun email => email = uid x ++ "@" ++ domain mail_config)).
  - unfold MailboxManager.create_mailbox.
    apply preserves_bind; [apply preserves_emit | intros _; apply preserves_ret].
  - intros w a E. simpl in E. now injection E as <-.
  - intros email ->. unfold FreeIPAListener._update_mail_attribute.
    apply preserves_bind; [apply preserves_connection_modify | intros _].
    apply preserves_emit.
Qed.

Lemma preserves_watch_iteration :
  preserves R (FreeIPAListener.watch_iteration config mail_config).
Proof.
  unfold FreeIPAListener.watch_iteration.
  apply preserves_bind; [|intros _; apply preserves_emit].
  apply preserves_try_except; [|intros e; apply preserves_emit].
  apply preserves_bind; [apply preserves_process_new_users | intros _].
  apply preserves_bind; [apply preserves_process_disabled_users | intros _].
  apply preserves_ret.
Qed.

Lemma preserves_watch_loop (n : nat) :
  preserves R (FreeIPAListener.watch_loop config mail_config n).
Proof.
  induction n as [|n IH]; simpl.
  - apply preserves_ret.
  - apply preserves_bind; [apply preserves_watch_iteration | intros _; exact IH].
Qed.

End Preserves.

(** ** The directory through the loop *)

Lemma kept_refl (mail_config : MailConfig) (a : Entry) : kept mail_config a a.
Proof. unfold kept. tauto. Qed.

Lemma kept_trans (mail_config : MailConfig) (a b c : Entry) :
  kept mail_config a b -> kept mail_config b c -> kept mail_config a c.
Proof.
  intros (D1 & U1 & P1 & L1 & M1) (D2 & U2 & P2 & L2 & M2).
  repeat split; try congruence.
  destruct M2 as [M2|M2]; [|now right].
  destruct M1 as [M1|(u & M1)]; [left; congruence | right; exists u; congruence].
Qed.

Lemma same_people_refl (mail_config : MailConfig) (w : World) :
  same_people mail_config w w.
Proof.
  unfold same_people. induction (directory w); constructor;
    [apply kept_refl | assumption].
Qed.

Lemma same_people_trans (mail_config : MailConfig) (a b c : World) :
  same_people mail_config a b -> same_people mail_config b c ->
  same_people mail_config a c.
Proof.
  unfold same_people. intros H. revert c.
  induction H as [|x y l l' K _ IH]; intros c H2;
    inversion H2 as [|? z ? l'' K2 H2' E1 E2]; subst; constructor.
  - eapply kept_trans; eassumption.
  - apply (IH (with_directory l'' c)). exact H2'.
Qed.

Lemma same_people_modify (mail_config : MailConfig) (dn u : string) (w : World) :
  same_people mail_config w
    (with_directory
       (map (replace_mail dn (u ++ "@" ++ domain mail_config)) (directory w)) w).
Proof.
  unfold same_people; simpl.
  induction (directory w) as [|a l IH]; simpl; constructor; [|exact IH].
  unfold replace_mail. destruct (String.eqb (entry_dn a) dn).
  - unfold kept; simpl. repeat split. right. now exists u.
  - apply kept_refl.
Qed.

(** X2.  Whatever happens in the first [n] turns of the loop (requests
    failing or not), the directory keeps its entries, in the same order
    and under the same names, with the same login, [person] flag and lock
    flag; the only change an entry can see is its [mail] attribute set to
    an address of the configured domain.  No [mail] attribute is ever
    removed. *)
Theorem watch_loop_only_sets_mail_attributes
  (config : FreeIPAConfig) (mail_config : MailConfig) (n : nat) (w : World) :
  let w' := snd (FreeIPAListener.watch_loop config mail_config n w) in
  Forall2 (kept mail_config) (directory w) (directory w') /\
  map entry_dn (directory w') = map entry_dn (directory w) /\
  (forall a b, In (a, b) (combine (directory w) (directory w')) ->
               mail a <> None -> mail b <> None).
Proof.
  intros w'.
  assert (H : same_people mail_config w w').
  { apply (preserves_watch_loop (same_people mail_config)).
    - apply same_people_refl.
    - apply same_people_trans.
    - intros t v. exact (same_people_refl mail_config v).
    - intros f v. exact (same_people_refl mail_config v).
    - apply same_people_modify. }
  unfold same_people in H. split; [exact H|].
  clearbody w'. induction H as [|a b l l' K _ [IH1 IH2]]; simpl.
  - split; [reflexivity | contradiction].
  - split.
    + f_equal; [apply K | exact IH1].
    + intros a' b' [E|Hin] Hm; [|now apply (IH2 a' b')].
      injection E as <- <-.
      destruct K as (_ & _ & _ & _ & [M|(u & M)]); rewrite M;
        [exact Hm | discriminate].
Qed.

(** X3.  [_process_disabled_users] only reads: in every world it leaves
    the directory and the connection as they were, and it sends no
    modify request and creates no mailbox. *)
Theorem process_disabled_users_is_read_only
  (config : FreeIPAConfig) (mail_config : MailConfig) (w : World) :
  let w' := snd (FreeIPAListener._process_disabled_users config mail_config w) in
  directory w' = directory w /\
  connection w' = connection w /\
  exists t,
    trace w' = (trace w ++ t)%list /\
    (forall dn m, ~ In (Ldap (Modify dn m)) t) /\
    (forall m q, ~ In (Log INFO (MsgCreating m q)) t).
Proof.
  intros w'.
  assert (H : same_directory w w').
  { apply (preserves_process_disabled_users same_directory).
    - intros v. now split.
    - intros a b c [D1 C1] [D2 C2]. split; congruence.
    - intros t v. now split.
    - intros f v. now split. }
  destruct H as [D C]. split; [exact D|]. split; [exact C|].
  destruct (emits_process_disabled_users config mail_config w) as (t & T & F).
  exists t. split; [exact T|].
  rewrite Forall_forall in F.
  split; intros x y Hin; apply F in Hin; exact Hin.
Qed.

(** ** What a sweep for disabled users does *)

Lemma for_each_cons_step {A : Type} (x : A) (xs : list A) (body : A -> M unit)
  (w w1 : World) :
  body x w = (Ok tt, w1) -> for_each (x :: xs) body w = for_each xs body w1.
Proof. intros E. simpl. unfold bind. now rewrite E. Qed.

Lemma archive_each (mail_config : MailConfig) (xs : list Entry) :
  forall w,
    for_each xs
      (fun entry =>
         logger INFO (MsgDisabledUser (uid entry)) ;;
         _ <- MailboxManager.archive_mailbox mail_config (uid entry) ;;
         ret tt) w
    = (Ok tt,
       with_trace (trace w ++ flat_map (archive_records mail_config) xs) w).
Proof.
  induction xs as [|x xs IH]; intros w.
  - destruct w; simpl. unfold ret, with_trace; simpl. now rewrite app_nil_r.
  - erewrite for_each_cons_step; [|reflexivity].
    rewrite IH. unfold with_trace; simpl.
    now rewrite <- !app_assoc.
Qed.

(** X4.  When its search goes through, [_process_disabled_users] archives
    the entries the search returns (the locked [person] entries with a
    [mail] attribute under the base DN), each exactly once and in the
    order of the result, and does nothing else: the trace grows by the
    search and, per entry, the two log records of its archiving. *)
Theorem process_disabled_users_archives_the_search_result
  (config : FreeIPAConfig) (mail_config : MailConfig) (w : World) :
  healthy w ->
  FreeIPAListener._process_disabled_users config mail_config w
  = (Ok tt,
     with_trace
       (trace w ++
        Ldap (Search (base_dn config) disabled_users_filter)
        :: flat_map (archive_records mail_config)
             (search_result (directory w) (base_dn config) disabled_users_filter))
       w).
Proof.
  intros H. unfold FreeIPAListener._process_disabled_users.
  eapply bind_ok; [now apply healthy_search|].
  cbv zeta. rewrite archive_each.
  unfold with_trace; simpl. now rewrite <- app_assoc.
Qed.

Lemma process_disabled_users_archives_the_search_result_witness :
  FreeIPAListener._process_disabled_users default_FreeIPAConfig default_MailConfig
    (mk_world [jkowalski; anowak; dyrektor] [])
  = (Ok tt,
     with_trace
       [Ldap (Search "dc=zsel,dc=opole,dc=pl" disabled_users_filter);
        Log INFO (MsgDisabledUser "anowak");
        Log INFO (MsgArchiving "anowak@zsel.opole.pl" "/archive/mail/anowak")]
       (mk_world [jkowalski; anowak; dyrektor] [])).
Proof.
  apply (process_disabled_users_archives_the_search_result
           default_FreeIPAConfig default_MailConfig
           (mk_world [jkowalski; anowak; dyrektor] [])).
  split; [discriminate | reflexivity].
Defined.

(** ** A write-back that fails *)



(** ** Connecting *)

(** X6.  A failure to connect is not absorbed by the loop: started
    without a connection, [watch_users] binds first, and when the bind
    fails the exception leaves [watch_users] before the first turn; the
    only thing done is the bind request, and the listener still has no
    connection. *)
Theorem failed_bind_ends_watch_users
  (config : FreeIPAConfig) (mail_config : MailConfig) (n : nat) (w : World)
  (rest : list bool) :
  connection w = None ->
  faults w = true :: rest ->
  FreeIPAListener.watch_users config mail_config n w
  = (Raise (LDAPException (Bind (server config) (bind_dn config))),
     with_faults rest
       (with_trace
          (trace w ++ [Ldap (Bind (server config) (bind_dn config))]) w)).
Proof.
  intros C F. destruct w as [c dir plan t]; simpl in *; subst c plan.
  reflexivity.
Qed.

Lemma failed_bind_ends_watch_users_witness :
  let w := {| connection := None; directory := [jkowalski];
              faults := [true]; trace := [] |} in
  FreeIPAListener.watch_users default_FreeIPAConfig default_MailConfig 3 w
  = (Raise (LDAPException
              (Bind "ipa1.zsel.opole.pl"
                 "uid=mail-provisioner,cn=sysaccounts,cn=etc,dc=zsel,dc=opole,dc=pl")),
     with_faults []
       (with_trace
          [Ldap (Bind "ipa1.zsel.opole.pl"
                   "uid=mail-provisioner,cn=sysaccounts,cn=etc,dc=zsel,dc=opole,dc=pl")]
          w)).
Proof.
  intros w.
  apply (failed_bind_ends_watch_users default_FreeIPAConfig default_MailConfig 3 w []);
    reflexivity.
Defined.

Section LoopEmits.

Variable P : Event -> Prop.
Hypothesis P_new : forall ev, new_users_event ev -> P ev.
Hypothesis P_disabled : forall ev, disabled_users_event ev -> P ev.
Hypothesis P_error : forall e, P (Log ERROR (MsgWatchLoopError e)).
Hypothesis P_sleep : P (Sleep 60).

Variable config : FreeIPAConfig.
Variable mail_config : MailConfig.

Lemma emits_watch_iteration :
  emits P (FreeIPAListener.watch_iteration config mail_config).
Proof.
  unfold FreeIPAListener.watch_iteration.
  apply emits_bind; [|intros _; now apply emits_emit].
  apply emits_try_except; [|intros e; now apply emits_emit].
  apply emits_bind.
  - eapply emits_weaken; [exact P_new | apply emits_process_new_users].
  - intros _. apply emits_bind.
    + eapply emits_weaken; [exact P_disabled | apply emits_process_disabled_users].
    + intros _. apply emits_ret.
Qed.

Lemma emits_watch_loop (n : nat) :
  emits P (FreeIPAListener.watch_loop config mail_config n).
Proof.
  induction n as [|n IH]; simpl.
  - apply emits_ret.
  - apply emits_bind; [apply emits_watch_iteration | intros _; exact IH].
Qed.

End LoopEmits.

Lemma count_is_bind_zero (t : list Event) :
  Forall (fun ev => is_bind ev = false) t -> count is_bind t = 0.
Proof. apply count_zero. Qed.

(** X7.  [watch_users] binds at most once, and only when it starts
    without a connection: in the first [n] turns, whatever requests fail,
    the listener never binds again.  The bind requests it adds to the
    trace number one when it started unconnected and none otherwise. *)
Theorem watch_users_binds_at_most_once
  (config : FreeIPAConfig) (mail_config : MailConfig) (n : nat) (w : World) :
  exists t,
    trace (snd (FreeIPAListener.watch_users config mail_config n w))
    = (trace w ++ t)%list /\
    count is_bind t = match connection w with Some _ => 0 | None => 1 end.
Proof.
  assert (L : forall v,
             exists t,
               trace (snd (FreeIPAListener.watch_loop config mail_config n v))
               = (trace v ++ t)%list /\ count is_bind t = 0).
  { intros v.
    destruct (emits_watch_loop (fun ev => is_bind ev = false)) with
      (config := config) (mail_config := mail_config) (n := n) (w := v)
      as (t & T & F).
    - intros [[]| |] H; simpl in *; try reflexivity; contradiction.
    - intros [[]| |] H; simpl in *; try reflexivity; contradiction.
    - reflexivity.
    - reflexivity.
    - exists t. split; [exact T | now apply count_is_bind_zero]. }
  destruct w as [[srv|] dir plan t].
  - apply L.
  - assert (K : forall v : World,
               trace v = (t ++ [Ldap (Bind (server config) (bind_dn config));
                                Log INFO (MsgConnected (server config))])%list ->
               exists u,
                 trace (snd (FreeIPAListener.watch_loop config mail_config n v))
                 = (t ++ u)%list /\ count is_bind u = 1).
    { intros v V. destruct (L v) as (u & U & Z).
      exists ([Ldap (Bind (server config) (bind_dn config));
               Log INFO (MsgConnected (server config))] ++ u)%list.
      split; [now rewrite U, V, <- app_assoc|].
      now rewrite count_app, Z. }
    destruct plan as [|[] plan].
    + apply K. simpl. now rewrite <- app_assoc.
    + exists [Ldap (Bind (server config) (bind_dn config))].
      split; reflexivity.
    + apply K. simpl. now rewrite <- app_assoc.
Qed.

(** ** The loop always has a connection *)

Lemma same_connection_refl (w : World) : same_connection w w.
Proof. reflexivity. Qed.

Lemma same_connection_trans (a b c : World) :
  same_connection a b -> same_connection b c -> same_connection a c.
Proof. unfold same_connection. congruence. Qed.

Lemma never_attribute_error_ret {A : Type} (a : A) :
  never_attribute_error (ret a).
Proof. intros w e _ E. discriminate. Qed.

Lemma never_attribute_error_emit (ev : Event) : never_attribute_error (emit ev).
Proof. intros w e _ E. discriminate. Qed.

Lemma never_attribute_error_bind {A B : Type} (c : M A) (k : A -> M B) :
  preserves same_connection c ->
  never_attribute_error c -> (forall a, never_attribute_error (k a)) ->
  never_attribute_error (bind c k).
Proof.
  intros Hs Hc Hk w e C E. unfold bind in E.
  specialize (Hs w). specialize (Hc w). unfold same_connection in Hs.
  destruct (c w) as [[a|e'] w1]; simpl in *.
  - apply (Hk a w1 e); [now rewrite Hs | exact E].
  - injection E as <-. now apply Hc.
Qed.

Lemma never_attribute_error_request (r : LdapRequest) :
  never_attribute_error (request r).
Proof.
  intros w e _ E. unfold request, bind, emit, next_fault in E; simpl in E.
  destruct (faults w) as [|[] plan]; simpl in E; try discriminate.
  injection E as <-. discriminate.
Qed.

Lemma the_connection_same : preserves same_connection the_connection.
Proof. intros w. unfold the_connection. now destruct (connection w). Qed.

Lemma never_attribute_error_the_connection :
  never_attribute_error the_connection.
Proof.
  intros w e C E. unfold the_connection in E.
  destruct (connection w); [discriminate | contradiction].
Qed.

Lemma request_same (r : LdapRequest) : preserves same_connection (request r).
Proof.
  apply preserves_request; try reflexivity. apply same_connection_trans.
Qed.

Lemma connection_search_same (base : string) (f : Filter) :
  preserves same_connection (connection_search base f).
Proof.
  apply preserves_connection_search; try reflexivity.
  apply same_connection_trans.
Qed.

Lemma never_attribute_error_connection_search (base : string) (f : Filter) :
  never_attribute_error (connection_search base f).
Proof.
  unfold connection_search.
  apply never_attribute_error_bind;
    [apply the_connection_same | apply never_attribute_error_the_connection |].
  intros _.
  apply never_attribute_error_bind;
    [apply request_same | apply never_attribute_error_request |].
  intros _ w e _ E. discriminate.
Qed.

Lemma never_attribute_error_connection_modify (dn email : string) :
  never_attribute_error (connection_modify dn email).
Proof.
  unfold connection_modify.
  apply never_attribute_error_bind;
    [apply the_connection_same | apply never_attribute_error_the_connection |].
  intros _.
  apply never_attribute_error_bind;
    [apply request_same | apply never_attribute_error_request |].
  intros _ w e _ E. discriminate.
Qed.

Lemma stays_connected_ret {A : Type} (a : A) : stays_connected (ret a).
Proof. split; [intros w; reflexivity | apply never_attribute_error_ret]. Qed.

Lemma stays_connected_emit (ev : Event) : stays_connected (emit ev).
Proof. split; [intros w; reflexivity | apply never_attribute_error_emit]. Qed.

Lemma stays_connected_bind {A B : Type} (c : M A) (k : A -> M B) :
  stays_connected c -> (forall a, stays_connected (k a)) ->
  stays_connected (bind c k).
Proof.
  intros [Sc Nc] Hk. split.
  - apply (preserves_bind same_connection same_connection_trans);
      [exact Sc | intros a; apply Hk].
  - apply never_attribute_error_bind; [exact Sc | exact Nc |].
    intros a. apply Hk.
Qed.

Lemma stays_connected_for_each {A : Type} (xs : list A) (body : A -> M unit) :
  (forall x, stays_connected (body x)) -> stays_connected (for_each xs body).
Proof.
  intros Hb. induction xs as [|x xs IH]; simpl.
  - apply stays_connected_ret.
  - apply stays_connected_bind; [apply Hb | intros _; exact IH].
Qed.

Lemma stays_connected_connection_search (base : string) (f : Filter) :
  stays_connected (connection_search base f).
Proof.
  split; [apply connection_search_same |
          apply never_attribute_error_connection_search].
Qed.

Lemma stays_connected_connection_modify (dn email : string) :
  stays_connected (connection_modify dn email).
Proof.
  split; [|apply never_attribute_error_connection_modify].
  unfold connection_modify.
  apply (preserves_bind same_connection same_connection_trans);
    [apply the_connection_same | intros _].
  apply (preserves_bind same_connection same_connection_trans);
    [apply request_same | intros _].
  intros w. reflexivity.
Qed.

Section Connected.

Variable config : FreeIPAConfig.
Variable mail_config : MailConfig.

Lemma stays_connected_process_new_users :
  stays_connected (FreeIPAListener._process_new_users config mail_config).
Proof.
  unfold FreeIPAListener._process_new_users.
  apply stays_connected_for_each; intros ou.
  apply stays_connected_bind;
    [apply stays_connected_connection_search | intros xs].
  apply stays_connected_for_each; intros x.
  apply stays_connected_bind; [apply stays_connected_emit | intros _].
  apply stays_connected_bind.
  - apply stays_connected_bind;
      [apply stays_connected_emit | intros _; apply stays_connected_ret].
  - intros email.
    apply stays_connected_bind;
      [apply stays_connected_connection_modify | intros _].
    apply stays_connected_emit.
Qed.

Lemma stays_connected_process_disabled_users :
  stays_connected (FreeIPAListener._process_disabled_users config mail_config).
Proof.
  unfold FreeIPAListener._process_disabled_users.
  apply stays_connected_bind;
    [apply stays_connected_connection_search | intros xs].
  apply stays_connected_for_each; intros x.
  apply stays_connected_bind; [apply stays_connected_emit | intros _].
  apply stays_connected_bind; [|intros _; apply stays_connected_ret].
  apply stays_connected_bind;
    [apply stays_connected_emit | intros _; apply stays_connected_ret].
Qed.

Lemma new_users_event_no_attribute_error (ev : Event) :
  new_users_event ev -> no_attribute_error ev.
Proof. destruct ev as [r|[] m|s]; simpl; tauto. Qed.

Lemma disabled_users_event_no_attribute_error (ev : Event) :
  disabled_users_event ev -> no_attribute_error ev.
Proof. destruct ev as [r|[] m|s]; simpl; tauto. Qed.

Lemma no_attribute_error_logged (e : Exception) :
  e <> AttributeError -> no_attribute_error (Log ERROR (MsgWatchLoopError e)).
Proof. destruct e; simpl; [trivial | congruence]. Qed.

(** A turn of the loop that starts with a connection keeps it and
    reports no [AttributeError]. *)
Lemma watch_iteration_connected (w : World) :
  connection w <> None ->
  let w' := snd (FreeIPAListener.watch_iteration config mail_config w) in
  connection w' = connection w /\ grows_by no_attribute_error w w'.
Proof.
  intros C w'.
  destruct stays_connected_process_new_users as [S1 N1].
  destruct stays_connected_process_disabled_users as [S2 N2].
  pose proof (emits_process_new_users config mail_config w) as G1.
  specialize (S1 w). specialize (N1 w). unfold same_connection in S1.
  subst w'.
  destruct (FreeIPAListener._process_new_users config mail_config w)
    as [[[]|e] w1] eqn:E1; simpl in *.
  - pose proof (emits_process_disabled_users config mail_config w1) as G2.
    specialize (S2 w1). specialize (N2 w1). unfold same_connection in S2.
    assert (C1 : connection w1 <> None) by now rewrite S1.
    destruct (FreeIPAListener._process_disabled_users config mail_config w1)
      as [[[]|e] w2] eqn:E2; simpl in *.
    + rewrite (iteration_no_error config mail_config w w1 w2 E1 E2). simpl.
      split; [congruence|].
      eapply grows_by_trans;
        [eapply grows_by_weaken;
           [apply new_users_event_no_attribute_error | exact G1]|].
      eapply grows_by_trans;
        [eapply grows_by_weaken;
           [apply disabled_users_event_no_attribute_error | exact G2]|].
      exists [Sleep 60]. split; [reflexivity | repeat constructor].
    + rewrite (iteration_disabled_users_raises config mail_config w w1 w2 e E1 E2).
      simpl. split; [congruence|].
      eapply grows_by_trans;
        [eapply grows_by_weaken;
           [apply new_users_event_no_attribute_error | exact G1]|].
      eapply grows_by_trans;
        [eapply grows_by_weaken;
           [apply disabled_users_event_no_attribute_error | exact G2]|].
      exists [Log ERROR (MsgWatchLoopError e); Sleep 60].
      split; [reflexivity|].
      constructor; [apply no_attribute_error_logged; now apply N2|].
      repeat constructor.
  - rewrite (iteration_new_users_raises config mail_config w w1 e E1). simpl.
    split; [congruence|].
    eapply grows_by_trans;
      [eapply grows_by_weaken;
         [apply new_users_event_no_attribute_error | exact G1]|].
    exists [Log ERROR (MsgWatchLoopError e); Sleep 60].
    split; [reflexivity|].
    constructor; [apply no_attribute_error_logged; now apply N1|].
    repeat constructor.
Qed.

Lemma watch_loop_connected (n : nat) :
  forall w,
    connection w <> None ->
    grows_by no_attribute_error w
      (snd (FreeIPAListener.watch_loop config mail_config n w)).
Proof.
  induction n as [|n IH]; intros w C; simpl.
  - apply grows_by_refl.
  - destruct (watch_iteration_connected w C) as [C1 G1].
    unfold bind.
    destruct (iteration_returns config mail_config w) as (w1 & E1 & _).
    rewrite E1 in *. simpl in *.
    eapply grows_by_trans; [exact G1 | apply IH; now rewrite C1].
Qed.

(** X8.  The loop never runs without a connection object: in no world
    does [watch_users] report an [AttributeError] in its first [n] turns.
    Either it was started with a connection, or its bind succeeded, or
    the bind failed and no turn was run. *)
Theorem watch_users_never_reports_attribute_error (n : nat) (w : World) :
  exists t,
    trace (snd (FreeIPAListener.watch_users config mail_config n w))
    = (trace w ++ t)%list /\
    ~ In (Log ERROR (MsgWatchLoopError AttributeError)) t.
Proof.
  assert (G : grows_by no_attribute_error w
                (snd (FreeIPAListener.watch_users config mail_config n w))).
  { destruct w as [[srv|] dir plan t].
    - apply (watch_loop_connected n). discriminate.
    - destruct plan as [|[] plan].
      + eapply grows_by_trans; [|apply (watch_loop_connected n); discriminate].
        exists [Ldap (Bind (server config) (bind_dn config));
                Log INFO (MsgConnected (server config))].
        split; [simpl; now rewrite <- app_assoc | repeat constructor].
      + exists [Ldap (Bind (server config) (bind_dn config))].
        split; [reflexivity | repeat constructor].
      + eapply grows_by_trans; [|apply (watch_loop_connected n); discriminate].
        exists [Ldap (Bind (server config) (bind_dn config));
                Log INFO (MsgConnected (server config))].
        split; [simpl; now rewrite <- app_assoc | repeat constructor]. }
  destruct G as (t & T & F). exists t. split; [exact T|].
  intros Hin. rewrite Forall_forall in F. exact (F _ Hin).
Qed.

End Connected.

(** ** What a sweep for new users writes *)

Lemma emits_for_each_in {A : Type} (P : Event -> Prop) (xs : list A)
  (body : A -> M unit) :
  (forall x, In x xs -> emits P (body x)) -> emits P (for_each xs body).
Proof.
  induction xs as [|x xs IH]; intros Hb; simpl.
  - apply emits_ret.
  - apply emits_bind; [apply Hb; now left | intros _].
    apply IH. intros y Hy. apply Hb. now right.
Qed.

Lemma emits_bind_returned {A B : Type} (P : Event -> Prop) (Q : A -> Prop)
  (c : M A) (k : A -> M B) :
  emits P c ->
  (forall w a, fst (c w) = Ok a -> Q a) ->
  (forall a, Q a -> emits P (k a)) ->
  emits P (bind c k).
Proof.
  intros Hc Hq Hk w. unfold bind. specialize (Hc w). specialize (Hq w).
  destruct (c w) as [[a|e] w1]; simpl in *; [|exact Hc].
  eapply grows_by_trans; [exact Hc | apply Hk; now apply Hq].
Qed.

Lemma emits_provisioning_events (config : FreeIPAConfig)
  (mail_config : MailConfig) :
  emits (provisioning_event config mail_config)
        (FreeIPAListener._process_new_users config mail_config).
Proof.
  unfold FreeIPAListener._process_new_users.
  apply emits_for_each_in; intros ou Hou.
  apply emits_bind.
  - apply emits_connection_search. simpl. split; [reflexivity|].
    now exists ou.
  - intros xs. apply emits_for_each; intros x.
    apply emits_bind; [apply emits_emit; simpl; now exists ou | intros _].
    apply (emits_bind_returned _
             (fun email => email = uid x ++ "@" ++ domain mail_config)).
    + unfold MailboxManager.create_mailbox.
      apply emits_bind; [|intros _; apply emits_ret].
      apply emits_emit. simpl. now exists (uid x), ou.
    + intros w a E. simpl in E. now injection E as <-.
    + intros email ->. unfold FreeIPAListener._update_mail_attribute.
      apply emits_bind.
      * apply emits_connection_modify. simpl. now exists (uid x).
      * intros _. apply emits_emit. simpl. now exists (uid x).
Qed.

(** X9.  Whatever the directory holds and whichever requests fail, a
    sweep for new users searches only under watched units and with the
    new-users filter, creates mailboxes only with an address of the
    configured domain and the quota of a role detected from a watched
    unit, and writes only addresses of the configured domain to the
    directory. *)
Theorem process_new_users_writes_only_configured_values
  (config : FreeIPAConfig) (mail_config : MailConfig) (w : World) :
  exists t,
    trace (snd (FreeIPAListener._process_new_users config mail_config w))
    = (trace w ++ t)%list /\
    (forall base f,
       In (Ldap (Search base f)) t ->
       f = new_users_filter /\
       exists ou, In ou (watch_ous config) /\ base = ou ++ "," ++ base_dn config) /\
    (forall m q,
       In (Log INFO (MsgCreating m q)) t ->
       exists u ou,
         In ou (watch_ous config) /\ m = u ++ "@" ++ domain mail_config /\
         q = _get_quota mail_config (_detect_role ou)) /\
    (forall dn m,
       In (Ldap (Modify dn m)) t -> exists u, m = u ++ "@" ++ domain mail_config).
Proof.
  destruct (emits_provisioning_events config mail_config w) as (t & T & F).
  exists t. split; [exact T|].
  rewrite Forall_forall in F.
  split; [|split]; intros x y Hin; apply F in Hin; exact Hin.
Qed.

(** X10.  With the default configuration the role [DYREKCJA] is never
    assigned and its quota of 20 GiB is never given: the watched units
    are uczniowie, nauczyciele and administracja, so every mailbox a
    sweep creates, in any world, has a quota of 1, 5 or 10 GiB. *)
Theorem default_sweep_never_assigns_the_directors_quota (w : World) :
  exists t,
    trace (snd (FreeIPAListener._process_new_users
                  default_FreeIPAConfig default_MailConfig w))
    = (trace w ++ t)%list /\
    (forall u r, In (Log INFO (MsgNewUser u r)) t -> r <> DYREKCJA) /\
    (forall m q,
       In (Log INFO (MsgCreating m q)) t ->
       q <> quota_dyrekcja default_MailConfig /\
       (q = GiB \/ q = 5 * GiB \/ q = 10 * GiB)%Z).
Proof.
  destruct (emits_provisioning_events default_FreeIPAConfig default_MailConfig w)
    as (t & T & F).
  exists t. split; [exact T|].
  rewrite Forall_forall in F.
  split.
  - intros u r Hin. apply F in Hin. simpl in Hin.
    destruct Hin as (ou & [<-|[<-|[<-|[]]]] & ->); discriminate.
  - intros m q Hin. apply F in Hin. simpl in Hin.
    destruct Hin as (u & ou & [<-|[<-|[<-|[]]]] & _ & ->);
      (split; [discriminate|]); vm_compute; tauto.
Qed.

(** ** A second sweep for new users *)

Lemma replace_mail_only_sets_mail (dn email : string) :
  only_sets_mail (replace_mail dn email).
Proof.
  intros a. unfold replace_mail.
  destruct (String.eqb (entry_dn a) dn); simpl; auto.
Qed.

Lemma replace_mail_named (email : string) (x a : Entry) :
  entry_dn x = entry_dn a ->
  is_some (mail (replace_mail (entry_dn x) email a)) = true.
Proof.
  intros E. unfold replace_mail. rewrite E, String.eqb_refl. reflexivity.
Qed.

Lemma search_result_nil (dir : list Entry) (base : string) (f : Filter) :
  (forall b, In b dir -> in_subtree base (entry_dn b) = true ->
             matches f b = false) ->
  search_result dir base f = [].
Proof.
  unfold search_result. induction dir as [|b dir IH]; intros H; simpl;
    [reflexivity|].
  destruct (in_subtree base (entry_dn b)) eqn:S; simpl.
  - rewrite (H b); [|now left|exact S].
    apply IH. intros c Hc. apply H. now right.
  - apply IH. intros c Hc. apply H. now right.
Qed.

Section SecondSweep.

Variable config : FreeIPAConfig.
Variable mail_config : MailConfig.

Local Abbreviation handle ou :=
  (fun entry : Entry =>
     logger INFO (MsgNewUser (uid entry) (_detect_role ou)) ;;
     email <- MailboxManager.create_mailbox mail_config (uid entry) (_detect_role ou) ;;
     FreeIPAListener._update_mail_attribute (entry_dn entry) email).

Local Abbreviation visit :=
  (fun ou : string =>
     entries <- connection_search (ou ++ "," ++ base_dn config) new_users_filter ;;
     for_each entries (handle ou)).

Local Abbreviation query ou :=
  (Ldap (Search (ou ++ "," ++ base_dn config) new_users_filter)).

(** Handling the entries [xs]: the directory is rewritten entry by
    entry, and every entry bearing the name of one of [xs] ends up with a
    [mail] attribute. *)
Lemma inner_all (ou : string) (xs : list Entry) :
  forall w,
    healthy w ->
    exists w' G,
      for_each xs (handle ou) w = (Ok tt, w') /\
      healthy w' /\
      directory w' = map G (directory w) /\
      only_sets_mail G /\
      (forall a, (exists x, In x xs /\ entry_dn x = entry_dn a) ->
                 is_some (mail (G a)) = true).
Proof.
  induction xs as [|x xs IH]; intros w H.
  - exists w, (fun a => a). split; [reflexivity|]. split; [exact H|].
    split; [now rewrite map_id|]. split.
    + intros a. auto.
    + intros a (x & [] & _).
  - destruct (handle_healthy mail_config ou x w H) as (w1 & E1 & H1 & D1 & _).
    destruct (IH w1 H1) as (w' & G' & E' & H' & D' & S' & K').
    set (r := replace_mail (entry_dn x) (uid x ++ "@" ++ domain mail_config)) in *.
    exists w', (fun a => G' (r a)).
    split; [now apply (for_each_cons_ok _ _ _ w w1)|].
    split; [exact H'|].
    split; [now rewrite D', D1, map_map|].
    split.
    + intros a.
      destruct (S' (r a)) as (Sd & Sp & Sm).
      destruct (replace_mail_only_sets_mail (entry_dn x)
                  (uid x ++ "@" ++ domain mail_config) a) as (Rd & Rp & Rm).
      fold r in Rd, Rp, Rm.
      repeat split; [congruence | congruence | auto].
    + intros a (y & [<-|Hy] & E).
      * apply S'. unfold r. now apply replace_mail_named.
      * apply K'. exists y. split; [exact Hy|].
        rewrite E. symmetry.
        apply (replace_mail_only_sets_mail (entry_dn x)
                 (uid x ++ "@" ++ domain mail_config) a).
Qed.

Lemma visit_all (ou : string) (w : World) :
  healthy w ->
  exists w' G,
    visit ou w = (Ok tt, w') /\
    healthy w' /\
    directory w' = map G (directory w) /\
    only_sets_mail G /\
    (forall a, In a (directory w) -> person a = true ->
               in_subtree (ou ++ "," ++ base_dn config) (entry_dn a) = true ->
               is_some (mail (G a)) = true).
Proof.
  intros H.
  set (base := ou ++ "," ++ base_dn config).
  set (w1 := with_trace (trace w ++ [Ldap (Search base new_users_filter)]) w).
  destruct (inner_all ou (search_result (directory w) base new_users_filter) w1)
    as (w' & G & E' & H' & D' & S' & K').
  { now apply healthy_with_trace. }
  exists w', G.
  split; [eapply bind_ok; [now apply healthy_search | exact E']|].
  split; [exact H'|]. split; [exact D'|]. split; [exact S'|].
  intros a Hin Hp Hsub.
  destruct (is_some (mail a)) eqn:Hm.
  - now apply S'.
  - apply K'. exists a. split; [|reflexivity].
    apply filter_In. split; [exact Hin|].
    fold base in Hsub.
    now rewrite Hsub, matches_new_users_filter, Hp, Hm.
Qed.

Lemma sweep_all (ous : list string) :
  forall w,
    healthy w ->
    exists w' G,
      for_each ous visit w = (Ok tt, w') /\
      healthy w' /\
      directory w' = map G (directory w) /\
      only_sets_mail G /\
      (forall a ou, In a (directory w) -> In ou ous -> person a = true ->
                    in_subtree (ou ++ "," ++ base_dn config) (entry_dn a) = true ->
                    is_some (mail (G a)) = true).
Proof.
  induction ous as [|ou ous IH]; intros w H.
  - exists w, (fun a => a). split; [reflexivity|]. split; [exact H|].
    split; [now rewrite map_id|]. split.
    + intros a. auto.
    + intros a ou _ [].
  - destruct (visit_all ou w H) as (w1 & G1 & E1 & H1 & D1 & S1 & K1).
    destruct (IH w1 H1) as (w' & G2 & E' & H' & D' & S2 & K2).
    exists w', (fun a => G2 (G1 a)).
    split; [now apply (for_each_cons_ok _ _ _ w w1)|].
    split; [exact H'|].
    split; [now rewrite D', D1, map_map|].
    split.
    + intros a. destruct (S1 a) as (A1 & A2 & A3).
      destruct (S2 (G1 a)) as (B1 & B2 & B3).
      repeat split; [congruence | congruence | auto].
    + intros a o Hin [<-|Ho] Hp Hsub.
      * apply S2. now apply K1.
      * destruct (S1 a) as (A1 & A2 & _).
        apply (K2 (G1 a) o); [|exact Ho| |].
        -- rewrite D1. now apply in_map.
        -- now rewrite A2.
        -- now rewrite A1.
Qed.

(** After a sweep whose requests all go through, no [person] entry under
    a watched unit is without a [mail] attribute. *)
Lemma sweep_leaves_no_one_without_mail (w : World) :
  healthy w ->
  exists w',
    FreeIPAListener._process_new_users config mail_config w = (Ok tt, w') /\
    healthy w' /\
    (forall b ou,
       In b (directory w') -> In ou (watch_ous config) -> person b = true ->
       in_subtree (ou ++ "," ++ base_dn config) (entry_dn b) = true ->
       is_some (mail b) = true).
Proof.
  intros H.
  destruct (sweep_all (watch_ous config) w H) as (w' & G & E & H' & D & S & K).
  exists w'. split; [exact E|]. split; [exact H'|].
  intros b ou Hin Hou Hp Hsub.
  rewrite D in Hin. apply in_map_iff in Hin as (a & <- & Ha).
  destruct (S a) as (A1 & A2 & _).
  apply (K a ou); [exact Ha | exact Hou | now rewrite <- A2 | now rewrite <- A1].
Qed.

(** A sweep over units whose searches all come back empty only issues
    the searches. *)
Lemma quiet_sweep (ous : list string) :
  forall w,
    healthy w ->
    (forall ou, In ou ous ->
       search_result (directory w) (ou ++ "," ++ base_dn config)
         new_users_filter = []) ->
    for_each ous visit w
    = (Ok tt, with_trace (trace w ++ map (fun ou => query ou) ous) w).
Proof.
  induction ous as [|ou ous IH]; intros w H Q.
  - destruct w; simpl. unfold ret, with_trace; simpl. now rewrite app_nil_r.
  - rewrite (for_each_cons_step ou ous visit w
               (with_trace (trace w ++ [query ou]) w)).
    + rewrite IH.
      * unfold with_trace; simpl. now rewrite <- app_assoc.
      * now apply healthy_with_trace.
      * intros o Ho. apply Q. now right.
    + eapply bind_ok; [now apply healthy_search|].
      rewrite Q; [reflexivity | now left].
Qed.

(** X11.  A sweep for new users whose requests all go through leaves no
    [person] entry under a watched unit without a [mail] attribute. *)
Theorem healthy_sweep_gives_every_watched_person_a_mail_attribute (w : World) :
  healthy w ->
  exists w',
    FreeIPAListener._process_new_users config mail_config w = (Ok tt, w') /\
    (forall b ou,
       In b (directory w') -> In ou (watch_ous config) -> person b = true ->
       in_subtree (ou ++ "," ++ base_dn config) (entry_dn b) = true ->
       mail b <> None).
Proof.
  intros H.
  destruct (sweep_leaves_no_one_without_mail w H) as (w' & E & _ & K).
  exists w'. split; [exact E|].
  intros b ou Hin Hou Hp Hsub Hm.
  specialize (K b ou Hin Hou Hp Hsub). rewrite Hm in K. discriminate.
Qed.

(** X12.  Provisioning is idempotent.  After a sweep for new users whose
    requests all go through, a second such sweep finds nobody: it issues
    its searches, one per watched unit, and nothing else; no mailbox is
    created a second time and the directory is not written to. *)
Theorem second_sweep_for_new_users_does_nothing (w : World) :
  healthy w ->
  exists w1,
    FreeIPAListener._process_new_users config mail_config w = (Ok tt, w1) /\
    FreeIPAListener._process_new_users config mail_config w1
    = (Ok tt,
       with_trace (trace w1 ++ map (fun ou => query ou) (watch_ous config)) w1).
Proof.
  intros H.
  destruct (sweep_leaves_no_one_without_mail w H) as (w1 & E & H1 & K).
  exists w1. split; [exact E|].
  apply (quiet_sweep (watch_ous config) w1 H1).
  intros ou Hou. apply search_result_nil.
  intros b Hin Hsub. rewrite matches_new_users_filter.
  destruct (person b) eqn:Hp; [|reflexivity].
  now rewrite (K b ou Hin Hou Hp Hsub).
Qed.

End SecondSweep.

Lemma healthy_sweep_gives_every_watched_person_a_mail_attribute_witness :
  exists w',
    FreeIPAListener._process_new_users default_FreeIPAConfig default_MailConfig
      (mk_world [jkowalski; anowak; dyrektor] []) = (Ok tt, w') /\
    (forall b ou,
       In b (directory w') -> In ou (watch_ous default_FreeIPAConfig) ->
       person b = true ->
       in_subtree (ou ++ "," ++ base_dn default_FreeIPAConfig) (entry_dn b) = true ->
       mail b <> None).
Proof.
  apply (healthy_sweep_gives_every_watched_person_a_mail_attribute
           default_FreeIPAConfig default_MailConfig
           (mk_world [jkowalski; anowak; dyrektor] [])).
  split; [discriminate | reflexivity].
Defined.

Lemma second_sweep_for_new_users_does_nothing_witness :
  exists w1,
    FreeIPAListener._process_new_users default_FreeIPAConfig default_MailConfig
      (mk_world [jkowalski; anowak; dyrektor] []) = (Ok tt, w1) /\
    FreeIPAListener._process_new_users default_FreeIPAConfig default_MailConfig w1
    = (Ok tt,
       with_trace
         (trace w1 ++
          map (fun ou =>
                 Ldap (Search (ou ++ "," ++ base_dn default_FreeIPAConfig)
                              new_users_filter))
              (watch_ous default_FreeIPAConfig)) w1).
Proof.
  apply (second_sweep_for_new_users_does_nothing
           default_FreeIPAConfig default_MailConfig
           (mk_world [jkowalski; anowak; dyrektor] [])).
  split; [discriminate | reflexivity].
Defined.
